(** * s3-presigned-upload: the upload orchestration core, embedded in Rocq

    The development follows the three source files of the core:
    the error taxonomy ([Errors]), the two transports with the progress
    throttler ([Xhr]) and the uploader with its retry loop, its
    bounded-concurrency controller and its progress aggregation
    ([Uploader]).

    Conventions of the embedding.
    - A JavaScript [number] that holds a count (bytes, milliseconds, an
      HTTP status, an attempt number) is a [Z], an integer that a double
      holds exactly; sums and comparisons of counts are exact.  Where
      the source multiplies or divides, the result is a [JsNumber],
      which keeps [NaN] and the infinities apart from the finite values
      and is rounded as binary64 rounds: to 53 significant bits, ties
      to even.
    - An optional property ([status?: number]) is an [option]; [None] is
      [undefined].  Where the code tells a property that is left out
      from one that is set to [undefined] (the spread of the retry
      options over the defaults), it is a [Property].
    - A thrown value ([unknown] in a [catch]) is a [Thrown].
    - [async] code is run to completion against a [World] that scripts
      what the network answers to the n-th request; the cancellation
      signal is a function of the number of suspension points passed so
      far, because JavaScript only changes it while the code is
      suspended. *)

From Stdlib Require Import ZArith Bool List String Ascii Lia SpecFloat.
From stdpp Require Import base option list strings gmap pretty.
Import ListNotations.

Local Open Scope string_scope.
Local Open Scope list_scope.
Local Open Scope Z_scope.

(** ** JavaScript values and thrown values *)

Module Js.

(** A parsed JSON body, or any other plain value the code never looks into. *)
#[warnings="-register-all"] Inductive JsValue : Type :=
| JUndefined
| JNull
| JBool (b : bool)
| JNum (z : Z)
| JStr (s : string)
| JObj (props : list (string * JsValue)).

(** A number that need not be a count: a whole number, NaN or an
    infinity. *)
Inductive JsNumber : Type :=
| JInt (z : Z)
| JNaN
| JPosInf
| JNegInf.

(** [a || b] on optional strings: the empty string is falsy. *)
Definition or_string (a : option string) (b : string) : string :=
  match a with
  | Some s => if String.eqb s "" then b else s
  | None => b
  end.

(** [a || undefined] on optional strings. *)
Definition or_undefined (a : option string) : option string :=
  match a with
  | Some s => if String.eqb s "" then None else Some s
  | None => None
  end.

(** An integer is read as the finite number it is. *)
Coercion JInt : Z >-> JsNumber.

(** *** Binary64 arithmetic on counts

    A finite double is a dyadic rational [dm * 2 ^ de].  The operations
    below round as IEEE 754 binary64 does (53 significant bits, to
    nearest, ties to even).  The exponent range is modelled where the
    source can leave it at the upper end, in its products; a quotient
    of two counts stays below the largest double, and one that is too
    small for 53 bits is so small that [Math.round] gives 0 for it
    whatever its last bits. *)

Record Dyadic : Type := mkDyadic { dm : Z; de : Z }.

(** The integer nearest to [n / d], ties to the even one ([d > 0]). *)
Definition roundHalfEven (n d : Z) : Z :=
  let q := n / d in
  let r := n mod d in
  if 2 * r <? d then q
  else if d <? 2 * r then q + 1
  else if Z.even q then q else q + 1.

(** The double nearest to a dyadic rational. *)
Definition round53 (x : Dyadic) : Dyadic :=
  if Z.abs (dm x) <? 2 ^ 53 then x
  else
    let d := Z.log2 (Z.abs (dm x)) - 52 in
    {| dm := roundHalfEven (dm x) (2 ^ d); de := de x + d |}.

(** [n * 2 ^ k / d] as a fraction of integers. *)
Definition scaled (n d k : Z) : Z * Z :=
  if 0 <=? k then (n * 2 ^ k, d) else (n, d * 2 ^ (- k)).

(** [a / b] for counts [a] and [b <> 0]: the exact quotient, scaled to
    a significand of 53 bits and rounded once. *)
Definition divide (a b : Z) : Dyadic :=
  if a =? 0 then {| dm := 0; de := 0 |}
  else
    let n := Z.abs a in
    let d := Z.abs b in
    let k0 := 53 + Z.log2 d - Z.log2 n in
    let k := if (scaled n d k0).2 * 2 ^ 53 <=? (scaled n d k0).1
             then k0 - 1 else k0 in
    {| dm := Z.sgn a * Z.sgn b * roundHalfEven (scaled n d k).1 (scaled n d k).2;
       de := - k |}.

(** [x * c] for a double [x] and a count [c]. *)
Definition times (x : Dyadic) (c : Z) : Dyadic :=
  round53 {| dm := dm x * c; de := de x |}.

(** [Math.round]: the nearest integer, ties towards plus infinity. *)
Definition Math_round (x : Dyadic) : Z :=
  if 0 <=? de x then dm x * 2 ^ de x
  else (2 * dm x + 2 ^ (- de x)) / 2 ^ (1 - de x).

(** Whether a rounded value is below [2 ^ 1024] in magnitude: beyond
    the largest double the result of an operation is an infinity. *)
Definition inRange (x : Dyadic) : bool :=
  if de x <=? 1024 then Z.abs (dm x) <? 2 ^ (1024 - de x) else dm x =? 0.

(** [Math.round ((a / b) * 100)] for counts [a] and [b]; a zero divisor
    gives [NaN] or an infinity, and so does a product beyond the
    largest double. *)
Definition round_percent (a b : Z) : JsNumber :=
  if b =? 0 then
    (if a =? 0 then JNaN else if 0 <? a then JPosInf else JNegInf)
  else
    let x := times (divide a b) 100 in
    if inRange x then JInt (Math_round x)
    else if 0 <? dm x then JPosInf else JNegInf.

(** The product of two counts: rounded to a double, an infinity beyond
    the largest double. *)
Definition multiply (x y : Z) : JsNumber :=
  let r := round53 {| dm := x * y; de := 0 |} in
  if inRange r then JInt (dm r * 2 ^ de r)
  else if 0 <? dm r then JPosInf else JNegInf.

(** [x * y] *)
Definition js_mul (x y : JsNumber) : JsNumber :=
  match x, y with
  | JNaN, _ | _, JNaN => JNaN
  | JInt a, JInt b => multiply a b
  | JInt a, JPosInf | JPosInf, JInt a =>
      if a =? 0 then JNaN else if 0 <? a then JPosInf else JNegInf
  | JInt a, JNegInf | JNegInf, JInt a =>
      if a =? 0 then JNaN else if 0 <? a then JNegInf else JPosInf
  | JPosInf, JPosInf | JNegInf, JNegInf => JPosInf
  | JPosInf, JNegInf | JNegInf, JPosInf => JNegInf
  end.

(** [Math.min(x, y)] *)
Definition Math_min (x y : JsNumber) : JsNumber :=
  match x, y with
  | JNaN, _ | _, JNaN => JNaN
  | JNegInf, _ | _, JNegInf => JNegInf
  | JPosInf, v | v, JPosInf => v
  | JInt a, JInt b => JInt (Z.min a b)
  end.

(** The same operations by the Standard Library's specification of
    binary64 ([SpecFloat]), to compare the two on concrete numbers. *)
Definition binary64 (z : Z) : spec_float := binary_normalize 53 1024 z 0 false.

Definition asBinary64 (x : Dyadic) : spec_float :=
  binary_normalize 53 1024 (dm x) (de x) false.

Definition numberAsBinary64 (x : JsNumber) : spec_float :=
  match x with
  | JInt v => binary64 v
  | JNaN => S754_nan
  | JPosInf => S754_infinity false
  | JNegInf => S754_infinity true
  end.

Definition sameBinary64 (x y : spec_float) : bool :=
  match SFcompare x y with
  | Some Eq => true
  | _ => false
  end.

Definition quotientAgrees (ab : Z * Z) : bool :=
  sameBinary64 (asBinary64 (divide ab.1 ab.2))
    (SFdiv 53 1024 (binary64 ab.1) (binary64 ab.2)).

Definition ratioAgrees (ab : Z * Z) : bool :=
  sameBinary64 (asBinary64 (times (divide ab.1 ab.2) 100))
    (SFmul 53 1024 (SFdiv 53 1024 (binary64 ab.1) (binary64 ab.2)) (binary64 100)).

Definition productAgrees (xy : Z * Z) : bool :=
  sameBinary64 (numberAsBinary64 (multiply xy.1 xy.2))
    (SFmul 53 1024 (binary64 xy.1) (binary64 xy.2)).

(** The pairs [(a, b)] with [0 <= a <= n] and [1 <= b <= n]. *)
Definition grid (n : nat) : list (Z * Z) :=
  flat_map (fun a => map (fun b => (Z.of_nat a, Z.of_nat (S b))) (seq 0 n))
    (seq 0 (S n)).

End Js.
Import Js.

(** ** errors.ts *)

Module Errors.

Inductive UploadErrorCode : Type :=
| NETWORK | TIMEOUT | EXPIRED | ABORTED | BAD_REQUEST | SERVER.

Inductive UploadPhase : Type := init | upload.

(** What [detail] can hold: the caught [Error] object or a plain value. *)
Inductive Detail : Type :=
| DError (name message : string)
| DValue (v : JsValue).

Record UploadError : Type := mkUploadError {
  message : string;
  phase : UploadPhase;
  code : UploadErrorCode;
  status : option Z;
  detail : option Detail
}.

(** A value caught by [catch (error)]. *)
Inductive Thrown : Type :=
| TUploadError (e : UploadError)   (* error instanceof UploadError *)
| TError (name message : string)   (* any other instance of Error *)
| TValue (v : JsValue).            (* not an Error at all *)

Definition code_eqb (a b : UploadErrorCode) : bool :=
  match a, b with
  | NETWORK, NETWORK | TIMEOUT, TIMEOUT | EXPIRED, EXPIRED
  | ABORTED, ABORTED | BAD_REQUEST, BAD_REQUEST | SERVER, SERVER => true
  | _, _ => false
  end.

(** [new UploadError(message, phase, code, status, detail)] *)
Definition newUploadError (m : string) (p : UploadPhase) (c : UploadErrorCode)
    (s : option Z) (d : option Detail) : UploadError :=
  {| message := m; phase := p; code := c; status := s; detail := d |}.

Definition createNetworkError (p : UploadPhase) (m : string)
    (d : option Detail) : UploadError :=
  newUploadError m p NETWORK None d.

(** A default parameter value replaces an argument that is [undefined]. *)
Definition createTimeoutError (p : UploadPhase) (m : option string) : UploadError :=
  newUploadError (default "Request timed out" m) p TIMEOUT None None.

Definition createAbortError (p : UploadPhase) (m : option string) : UploadError :=
  newUploadError (default "Upload was aborted" m) p ABORTED None None.

Definition createExpiredError (p : UploadPhase) (m : option string) : UploadError :=
  newUploadError (default "Presigned URL has expired" m) p EXPIRED (Some 403) None.

Definition createServerError (p : UploadPhase) (s : Z) (m : string)
    (d : option Detail) : UploadError :=
  newUploadError m p SERVER (Some s) d.

Definition createBadRequestError (p : UploadPhase) (s : Z) (m : string)
    (d : option Detail) : UploadError :=
  newUploadError m p BAD_REQUEST (Some s) d.

(** [error.status && error.status >= n] *)
Definition status_truthy_ge (s : option Z) (n : Z) : bool :=
  match s with
  | Some z => negb (z =? 0) && (n <=? z)
  | None => false
  end.

(** [error.status === n] *)
Definition status_is (s : option Z) (n : Z) : bool :=
  match s with
  | Some z => z =? n
  | None => false
  end.

Definition isRetryableError (error : UploadError) : bool :=
  if code_eqb (code error) NETWORK || code_eqb (code error) TIMEOUT then true
  else if code_eqb (code error) SERVER && status_truthy_ge (status error) 500 then true
  else if code_eqb (code error) EXPIRED && status_is (status error) 403 then true
  else false.

Definition requiresReinit (error : UploadError) : bool :=
  code_eqb (code error) EXPIRED && status_is (status error) 403.

(** A value is passed as [detail]; [undefined] leaves the field unset. *)
Definition detail_of_value (v : JsValue) : option Detail :=
  match v with
  | JUndefined => None
  | _ => Some (DValue v)
  end.

Definition normalizeError (error : Thrown) (p : UploadPhase)
    (defaultMessage : string) : UploadError :=
  match error with
  | TUploadError e => e
  | TError name msg =>
      if String.eqb name "AbortError" then createAbortError p (Some msg)
      else if String.eqb name "TimeoutError" then createTimeoutError p (Some msg)
      else createNetworkError p msg (Some (DError name msg))
  | TValue v => createNetworkError p defaultMessage (detail_of_value v)
  end.

(** The default of [normalizeError]'s third parameter. *)
Definition unexpected : string := "An unexpected error occurred".

Definition http_message (st : Z) (statusText : string) : string :=
  "HTTP " +:+ pretty st +:+ ": " +:+ statusText.

Definition createErrorFromResponse (p : UploadPhase) (st : Z)
    (statusText : string) (responseBody : JsValue) : UploadError :=
  let message := http_message st statusText in
  if (400 <=? st) && (st <? 500) then
    if st =? 403 then createExpiredError p (Some message)
    else createBadRequestError p st message (detail_of_value responseBody)
  else if 500 <=? st then
    createServerError p st message (detail_of_value responseBody)
  else
    createNetworkError p message
      (Some (DValue (JObj [("status", JNum st);
                           ("statusText", JStr statusText);
                           ("responseBody", responseBody)]))).

(** The errors the library itself classifies: from an HTTP response, from
    a caught value that is not yet an [UploadError], or by the helpers the
    transports call directly. *)
Inductive classified : UploadError -> Prop :=
| cl_response p st text body :
    classified (createErrorFromResponse p st text body)
| cl_normalized name msg p dflt :
    classified (normalizeError (TError name msg) p dflt)
| cl_value v p dflt :
    classified (normalizeError (TValue v) p dflt)
| cl_abort p m : classified (createAbortError p m)
| cl_timeout p m : classified (createTimeoutError p m)
| cl_network p m d : classified (createNetworkError p m d).

End Errors.
Import Errors.

(** ** types.ts *)

Module Types.

Record UploadProgress : Type := mkProgress {
  bytesSent : Z;
  totalBytes : Z;
  percent : JsNumber
}.

Inductive Mode : Type := put | post.

Record UploadResult : Type := mkResult {
  r_key : option string;
  r_location : option string;
  r_etag : option string;
  r_mode : Mode
}.

(** [PresignPut | PresignPost] as the object is at run time: the tag
    [mode] and the properties of either variant, each of which the
    caller's [mapResponse] may have left out. *)
Record PresignConfig : Type := mkPresign {
  mode : Mode;
  uploadUrl : option string;
  key : option string;
  headers : option (list (string * string));   (* put *)
  fields : option (list (string * string));    (* post, in [Object.entries] order *)
  postFileFieldName : option string;           (* post *)
  expiresAt : option Z
}.

(** The part of a [File] the library reads. *)
Record File : Type := mkFile {
  f_name : string;
  f_size : Z;
  f_type : string
}.

(** The properties that [PresignPut] and [PresignPost] declare as
    required: [uploadUrl] and [key], and [fields] for [post]. *)
Definition wellFormed (d : PresignConfig) : bool :=
  match uploadUrl d, key d with
  | Some _, Some _ =>
      match mode d with
      | put => true
      | post => match fields d with Some _ => true | None => false end
      end
  | _, _ => false
  end.

Inductive Backoff : Type := linear | exponential.

(** A property of an options object: left out, set to [undefined], or
    set to a value. *)
Inductive Property (A : Type) : Type :=
| Absent
| Undefined
| Value (a : A).

Arguments Absent {A}.
Arguments Undefined {A}.
Arguments Value {A} a.

(** [RetryConfig]: every property is optional. *)
Record RetryConfig : Type := mkRetry {
  retries : Property Z;
  backoff : Property Backoff;
  minDelayMs : Property Z;
  maxDelayMs : Property Z;
  reinitOnAuthError : Property bool
}.

Inductive TransportType : Type := xhr | fetch.

End Types.
Import Types.

(** ** xhr.ts *)

Module Xhr.

(** *** What the browser does, as far as the transports see it *)

Record ProgressEvent : Type := mkEvent {
  lengthComputable : bool;
  loaded : Z;
  total : Z
}.

Inductive FormValue : Type :=
| FText (s : string)
| FFile (f : File).

(** A [FormData] is the list of its entries, in the order of [append]. *)
Definition FormData : Type := list (string * FormValue).

Definition append (formData : FormData) (name : string) (v : FormValue) : FormData :=
  formData ++ [(name, v)].


Inductive Body : Type :=
| BodyFile (f : File)
| BodyForm (formData : FormData).

(** A request as it leaves the transport. *)
Record Request : Type := mkRequest {
  req_method : string;
  req_url : string;
  req_headers : list (string * string);
  req_body : Body
}.

(** A [Response], or what an [XMLHttpRequest] holds after [load].
    [resp_json = None]: [json()] (or [JSON.parse]) throws;
    [resp_text = None]: [text()] throws. *)
Record Response : Type := mkResponse {
  resp_status : Z;
  resp_statusText : string;
  resp_etag : option string;       (* header ETag *)
  resp_location : option string;   (* header Location *)
  resp_json : option JsValue;
  resp_text : option string
}.

Definition ok (r : Response) : bool :=
  (200 <=? resp_status r) && (resp_status r <? 300).

(** How a [fetch] promise settles. *)
Inductive FetchReply : Type :=
| FetchRejects (e : Thrown)
| FetchResponds (r : Response).

(** The event that ends an [XMLHttpRequest].  [XhrAbort] stands for the
    signal's abort too: its handler rejects with the same error. *)
Inductive XhrEnd : Type :=
| XhrLoad (status : Z) (statusText : string) (etag location : option string)
          (responseText : string) (parsed : option JsValue)
| XhrError
| XhrTimeout
| XhrAbort.

(** The upload of one request over XHR: the progress events, each with
    the value of [Date.now()] when it is handled, then the end. *)
Record XhrScript : Type := mkXhrScript {
  progressEvents : list (Z * ProgressEvent);
  ending : XhrEnd
}.

(** What the network does during one transport call. *)
Record NetScript : Type := mkNet {
  net_xhr : XhrScript;
  net_fetch : FetchReply
}.

(** A URL argument that is [undefined] is converted to a string. *)
Definition url_string (u : option string) : string := default "undefined" u.

Definition quote : ascii := ascii_of_nat 34.

(** [replace] with the global pattern of the double-quote character and
    the empty replacement: every double quote is removed. *)
Fixpoint remove_quotes (s : string) : string :=
  match s with
  | EmptyString => EmptyString
  | String c s' =>
      if Ascii.eqb c quote then remove_quotes s'
      else String c (remove_quotes s')
  end.

(** *** ProgressThrottler *)

Record ProgressThrottler : Type := mkThrottler {
  lastEmit : Z;
  intervalMs : Z
}.

(** [new ProgressThrottler(intervalMs)], default 120. *)
Definition newProgressThrottler (i : option Z) : ProgressThrottler :=
  {| lastEmit := 0; intervalMs := default 120 i |}.

(** [shouldEmit()], where [now] is what [Date.now()] returns. *)
Definition shouldEmit (t : ProgressThrottler) (now : Z) : bool * ProgressThrottler :=
  if intervalMs t <=? now - lastEmit t then
    (true, {| lastEmit := now; intervalMs := intervalMs t |})
  else (false, t).

Definition forceEmit (t : ProgressThrottler) (now : Z) : ProgressThrottler :=
  {| lastEmit := now; intervalMs := intervalMs t |}.

(** The answers of [shouldEmit] to calls made at the given times. *)
Fixpoint throttlerRun (t : ProgressThrottler) (times : list Z) : list bool :=
  match times with
  | [] => []
  | now :: rest =>
      let (b, t') := shouldEmit t now in
      b :: throttlerRun t' rest
  end.

(** *** The transports *)

(** [options]: whether [onProgress] is given, the [aborted] flag of the
    signal at the time of the call if a signal is given, and the
    interval. *)
Record TransportOptions : Type := mkOptions {
  onProgress : bool;
  signal : option bool;
  progressIntervalMs : option Z
}.

(** One call of [upload]: the values handed to [onProgress] in order,
    the request that was sent if one was, and how the promise settles. *)
Record TransportRun : Type := mkRun {
  emitted : list UploadProgress;
  sent : option Request;
  outcome : UploadResult + Thrown
}.

Definition Transport : Type :=
  PresignConfig -> File -> TransportOptions -> NetScript -> TransportRun.

(** The listener of [xhr.upload]'s [progress] event. *)
Definition progressListener (throttler : ProgressThrottler) (now : Z)
    (event : ProgressEvent) : option UploadProgress * ProgressThrottler :=
  if lengthComputable event then
    let (emit, throttler') := shouldEmit throttler now in
    if emit || (loaded event =? total event) then
      (Some {| bytesSent := loaded event;
               totalBytes := total event;
               percent := round_percent (loaded event) (total event) |},
       throttler')
    else (None, throttler')
  else (None, throttler).

(** The value the listener builds from an event. *)
Definition progressOf (event : ProgressEvent) : UploadProgress :=
  {| bytesSent := loaded event;
     totalBytes := total event;
     percent := round_percent (loaded event) (total event) |}.

(** The listener applied to the events of a script, one after the other. *)
Fixpoint progressRun (throttler : ProgressThrottler)
    (events : list (Z * ProgressEvent)) : list UploadProgress :=
  match events with
  | [] => []
  | (now, event) :: rest =>
      let (p, throttler') := progressListener throttler now event in
      match p with
      | Some progress => progress :: progressRun throttler' rest
      | None => progressRun throttler' rest
      end
  end.

(** [Object.entries] of a property that is [undefined] throws. *)
Definition entries (o : option (list (string * string)))
    : Thrown + list (string * string) :=
  match o with
  | Some l => inr l
  | None => inl (TError "TypeError" "Cannot convert undefined or null to object")
  end.

Definition setRequestHeader (hs : list (string * string)) (k v : string)
    : list (string * string) :=
  hs ++ [(k, v)].

(** The [try] block of [XHRTransport.upload]: open, configure, send. *)
Definition xhrSend (config : PresignConfig) (file : File) : Thrown + Request :=
  match mode config with
  | put =>
      let hs :=
        match headers config with
        | Some h => fold_left (fun acc kv => setRequestHeader acc kv.1 kv.2) h []
        | None => []
        end in
      inr {| req_method := "PUT"; req_url := url_string (uploadUrl config);
             req_headers := hs; req_body := BodyFile file |}
  | post =>
      match entries (fields config) with
      | inl e => inl e
      | inr fs =>
          let formData :=
            fold_left (fun fd kv => append fd kv.1 (FText kv.2)) fs [] in
          let fileFieldName := or_string (postFileFieldName config) "file" in
          let formData := append formData fileFieldName (FFile file) in
          inr {| req_method := "POST"; req_url := url_string (uploadUrl config);
                 req_headers := []; req_body := BodyForm formData |}
      end
  end.

(** The listeners of [load], [error], [timeout] and [abort]. *)
Definition xhrSettle (config : PresignConfig) (e : XhrEnd) : UploadResult + Thrown :=
  match e with
  | XhrLoad status statusText etagH locationH responseText parsed =>
      if (200 <=? status) && (status <? 300) then
        let etag := or_undefined (remove_quotes <$> etagH) in
        let location := or_undefined locationH in
        inl {| r_key := key config; r_location := location;
               r_etag := etag; r_mode := mode config |}
      else
        let responseBody :=
          if String.eqb responseText "" then JUndefined
          else match parsed with
               | Some v => v
               | None => JStr responseText
               end in
        inr (TUploadError (createErrorFromResponse upload status statusText responseBody))
  | XhrError =>
      inr (TUploadError
             (createNetworkError upload "Network error occurred during upload" None))
  | XhrTimeout =>
      inr (TUploadError (createTimeoutError upload (Some "Upload request timed out")))
  | XhrAbort =>
      inr (TUploadError (createAbortError upload None))
  end.

Definition XHRTransport_upload (config : PresignConfig) (file : File)
    (options : TransportOptions) (script : XhrScript) : TransportRun :=
  let throttler := newProgressThrottler (progressIntervalMs options) in
  match signal options with
  | Some true =>
      {| emitted := []; sent := None;
         outcome := inr (TUploadError (createAbortError upload None)) |}
  | _ =>
      match xhrSend config file with
      | inl error =>
          {| emitted := []; sent := None;
             outcome := inr (TUploadError
               (normalizeError error upload "Failed to initiate upload request")) |}
      | inr request =>
          {| emitted := if onProgress options
                        then progressRun throttler (progressEvents script)
                        else [];
             sent := Some request;
             outcome := xhrSettle config (ending script) |}
      end
  end.

(** The request [FetchTransport.upload] passes to [fetch]. *)
Definition fetchRequest (config : PresignConfig) (file : File) : Thrown + Request :=
  match mode config with
  | put =>
      inr {| req_method := "PUT"; req_url := url_string (uploadUrl config);
             req_headers := default [] (headers config);
             req_body := BodyFile file |}
  | post =>
      match entries (fields config) with
      | inl e => inl e
      | inr fs =>
          let formData :=
            fold_left (fun fd kv => append fd kv.1 (FText kv.2)) fs [] in
          let fileFieldName := or_string (postFileFieldName config) "file" in
          let formData := append formData fileFieldName (FFile file) in
          inr {| req_method := "POST"; req_url := url_string (uploadUrl config);
                 req_headers := []; req_body := BodyForm formData |}
      end
  end.

(** [try { responseBody = await response.json() } catch { try { ... text() }
    catch { undefined } }] *)
Definition errorBody (r : Response) : JsValue :=
  match resp_json r with
  | Some v => v
  | None =>
      match resp_text r with
      | Some s => JStr s
      | None => JUndefined
      end
  end.

(** The [catch] of [FetchTransport.upload]. *)
Definition fetchCatch (error : Thrown) : UploadError :=
  match error with
  | TError name msg =>
      if String.eqb name "AbortError" then createAbortError upload (Some msg)
      else normalizeError error upload "Upload request failed"
  | _ => normalizeError error upload "Upload request failed"
  end.

Definition FetchTransport_upload (config : PresignConfig) (file : File)
    (options : TransportOptions) (reply : FetchReply) : TransportRun :=
  match fetchRequest config file with
  | inl error =>
      {| emitted := []; sent := None;
         outcome := inr (TUploadError (fetchCatch error)) |}
  | inr request =>
      let settled : UploadResult + Thrown :=
        match reply with
        | FetchRejects error => inr error
        | FetchResponds response =>
            if negb (ok response) then
              inr (TUploadError
                     (createErrorFromResponse upload (resp_status response)
                        (resp_statusText response) (errorBody response)))
            else
              let etag := or_undefined (remove_quotes <$> resp_etag response) in
              let location := or_undefined (resp_location response) in
              inl {| r_key := key config; r_location := location;
                     r_etag := etag; r_mode := mode config |}
        end in
      {| emitted := []; sent := Some request;
         outcome := match settled with
                    | inl result => inl result
                    | inr error => inr (TUploadError (fetchCatch error))
                    end |}
  end.

Definition XHRTransport : Transport :=
  fun config file options net => XHRTransport_upload config file options (net_xhr net).

Definition FetchTransport : Transport :=
  fun config file options net => FetchTransport_upload config file options (net_fetch net).

(** [createTransport(type = 'xhr')] *)
Definition createTransport (type : option TransportType) : Transport :=
  match default xhr type with
  | xhr => XHRTransport
  | fetch => FetchTransport
  end.

End Xhr.
Import Xhr.

(** ** createUploader.ts *)

Module Uploader.

(** The merged object [{ ...DEFAULT_RETRY_CONFIG, ...config.retry }], each
    property as the code reads it.  A property that [config.retry] sets
    to [undefined] overrides the default with [undefined]:
    - [retries] is a whole number, read in [retries + 1] only; for
      [undefined] the sum is NaN, the test [attempt <= retries + 1] of
      the loop fails for the first attempt already, and nothing else
      is reached: this is the run of a budget of [-1], which the field
      holds then;
    - [backoff] is only compared with ['linear']; [undefined] takes the
      other branch, as ['exponential'] does;
    - [minDelayMs] and [maxDelayMs] enter a product and [Math.min],
      where [undefined] is NaN;
    - [reinitOnAuthError] is only tested for truth; [undefined] is
      false. *)
Record RetryPolicy : Type := mkPolicy {
  p_retries : Z;
  p_backoff : Backoff;
  p_minDelayMs : JsNumber;
  p_maxDelayMs : JsNumber;
  p_reinitOnAuthError : bool
}.

Definition DEFAULT_RETRY_CONFIG : RetryPolicy :=
  {| p_retries := 0; p_backoff := exponential; p_minDelayMs := 500;
     p_maxDelayMs := 4000; p_reinitOnAuthError := true |}.

(** One property of the merged object: the default when the property is
    left out, the reading of [undefined] when it is set to that. *)
Definition spread {A B : Type} (dflt undef : B) (read : A -> B) (p : Property A) : B :=
  match p with
  | Absent => dflt
  | Undefined => undef
  | Value a => read a
  end.

(** [{ ...DEFAULT_RETRY_CONFIG, ...config.retry }] *)
Definition mergeRetry (r : option RetryConfig) : RetryPolicy :=
  match r with
  | None => DEFAULT_RETRY_CONFIG
  | Some c =>
      {| p_retries := spread (p_retries DEFAULT_RETRY_CONFIG) (-1) id (retries c);
         p_backoff := spread (p_backoff DEFAULT_RETRY_CONFIG) exponential id (backoff c);
         p_minDelayMs := spread (p_minDelayMs DEFAULT_RETRY_CONFIG) JNaN JInt (minDelayMs c);
         p_maxDelayMs := spread (p_maxDelayMs DEFAULT_RETRY_CONFIG) JNaN JInt (maxDelayMs c);
         p_reinitOnAuthError :=
           spread (p_reinitOnAuthError DEFAULT_RETRY_CONFIG) false id
             (reinitOnAuthError c) |}
  end.

(** [Math.pow(2, n)] for the exponents the loop asks for ([n >= 0],
    attempt numbers start at 1): the integer power up to [2 ^ 1023],
    [Infinity] beyond.  For [n < 0] the power is a fraction, outside
    the numbers modelled here; NaN stands in its place, and what is
    proved about delays is proved for attempt numbers from 1 on. *)
Definition Math_pow2 (n : Z) : JsNumber :=
  if n <? 0 then JNaN
  else if n <? 1024 then JInt (2 ^ n)
  else JPosInf.

Definition calculateRetryDelay (attempt : Z) (config : RetryPolicy) : JsNumber :=
  let delay :=
    match p_backoff config with
    | linear => js_mul (p_minDelayMs config) (JInt attempt)
    | exponential => js_mul (p_minDelayMs config) (Math_pow2 (attempt - 1))
    end in
  Math_min delay (p_maxDelayMs config).

(** *** The init endpoint *)

Inductive HttpMethod : Type := POST | GET.

(** [HeadersInit]: a plain object from names to values, a [Headers]
    instance, or an array of name-value pairs. *)
Inductive HeadersInit : Type :=
| HRecord (props : list (string * string))
| HHeaders (held : list (string * string))
| HPairs (pairs : list (string * string)).

(** [headers]: a static value, or a function whose call returns one or
    throws. *)
Inductive HeadersSource : Type :=
| StaticHeaders (h : HeadersInit)
| ComputedHeaders (call : Thrown + HeadersInit).

Record InitConfig : Type := mkInit {
  i_url : string;
  i_method : option HttpMethod;
  i_headers : option HeadersSource;
  i_buildPayload : option (File -> Thrown + JsValue);
  i_mapResponse : JsValue -> Thrown + PresignConfig
}.

Record UploaderConfig : Type := mkConfig {
  c_init : InitConfig;
  c_retry : option RetryConfig;
  c_transport : option TransportType;
  c_progressIntervalMs : option Z
}.

(** The request of [initializePresign]; the body is the payload that
    [JSON.stringify] serialises. *)
Record InitRequest : Type := mkInitRequest {
  ir_method : HttpMethod;
  ir_url : string;
  ir_headers : HeadersInit;
  ir_body : option JsValue
}.

(** The decimal digits of an array index, as [String(i)] gives them. *)
Definition digit (n : nat) : ascii := ascii_of_nat (48 + n mod 10).

Fixpoint decimal_go (fuel n : nat) (acc : string) : string :=
  match fuel with
  | O => acc
  | S fuel' =>
      let acc' := String (digit n) acc in
      if Nat.eqb (n / 10) 0 then acc' else decimal_go fuel' (n / 10) acc'
  end.

Definition decimal (n : nat) : string := decimal_go (S n) n "".

(** The own enumerable properties of a [HeadersInit], in the order of
    [Object.keys] and of the spread [{ ...headers }]: those of a plain
    object; none for a [Headers] instance, which keeps its entries
    inside; the indices for an array, each holding a pair, which reads
    as the string [name,value] where a string is asked for. *)
Definition ownProperties (h : HeadersInit) : list (string * string) :=
  match h with
  | HRecord props => props
  | HHeaders _ => []
  | HPairs pairs =>
      imap (fun i kv => (decimal i, String.append kv.1 (String.append "," kv.2)))
        pairs
  end.

Definition lower_ascii (c : ascii) : ascii :=
  let n := nat_of_ascii c in
  if (Nat.leb 65 n && Nat.leb n 90)%bool then ascii_of_nat (n + 32) else c.

Fixpoint toLowerCase (s : string) : string :=
  match s with
  | EmptyString => EmptyString
  | String c s' => String (lower_ascii c) (toLowerCase s')
  end.

(** [Object.keys(headers).some(key => key.toLowerCase() === 'content-type')] *)
Definition hasContentType (headers : HeadersInit) : bool :=
  existsb (fun kv => String.eqb (toLowerCase kv.1) "content-type")
    (ownProperties headers).

(** The request options up to the call of [fetch]; any step may throw. *)
Definition initRequest (init : InitConfig) (file : File) : Thrown + InitRequest :=
  let headers : Thrown + HeadersInit :=
    match i_headers init with
    | None => inr (HRecord [])
    | Some (StaticHeaders h) => inr h
    | Some (ComputedHeaders call) => call
    end in
  match headers with
  | inl e => inl e
  | inr hs =>
      let method := default POST (i_method init) in
      match method, i_buildPayload init with
      | POST, Some buildPayload =>
          match buildPayload file with
          | inl e => inl e
          | inr payload =>
              let hs' :=
                if hasContentType hs then hs
                else HRecord (ownProperties hs
                                ++ [("Content-Type", "application/json")]) in
              inr {| ir_method := method; ir_url := i_url init;
                     ir_headers := hs'; ir_body := Some payload |}
          end
      | _, _ =>
          inr {| ir_method := method; ir_url := i_url init;
                 ir_headers := hs; ir_body := None |}
      end
  end.

(** The [try] block of [initializePresign], given how [fetch] settles. *)
Definition initializeTry (init : InitConfig) (file : File) (reply : FetchReply)
    : Thrown + PresignConfig :=
  match initRequest init file with
  | inl e => inl e
  | inr _ =>
      match reply with
      | FetchRejects e => inl e
      | FetchResponds response =>
          if negb (ok response) then
            inl (TUploadError
                   (createErrorFromResponse Errors.init (resp_status response)
                      (resp_statusText response) (errorBody response)))
          else
            match resp_json response with
            | None => inl (TError "SyntaxError" "Unexpected end of JSON input")
            | Some responseData => i_mapResponse init responseData
            end
      end
  end.

Definition initializePresign (config : UploaderConfig) (file : File)
    (reply : FetchReply) : UploadError + PresignConfig :=
  match initializeTry (c_init config) file reply with
  | inr presign => inr presign
  | inl error =>
      match error with
      | TUploadError e => inl e
      | _ => inl (normalizeError error Errors.init "Failed to initialize presigned URL")
      end
  end.

(** *** The retry loop *)

(** An [AbortSignal]: its [aborted] flag after [t] suspension points. *)
Definition Signal : Type := nat -> bool.

Record UploadOptions : Type := mkUploadOptions {
  o_onProgress : bool;
  o_signal : option Signal
}.

(** [signal?.aborted] *)
Definition aborted (s : option Signal) (t : nat) : bool :=
  match s with
  | Some f => f t
  | None => false
  end.

(** What the network answers: to the n-th call of the init endpoint and
    during the n-th call of the transport (counted from 0). *)
Record World : Type := mkWorld {
  w_init : nat -> FetchReply;
  w_net : nat -> NetScript
}.

(** What one orchestrated upload does, in order. *)
Inductive Event : Type :=
| EvInit (r : UploadError + PresignConfig)         (* initializePresign *)
| EvTransport (d : PresignConfig) (run : TransportRun)  (* transport.upload *)
| EvSleep (ms : JsNumber).                         (* sleep *)

(** The values handed to the caller's [onProgress] in the course of
    these events. *)
Definition progressCalls (evs : list Event) : list UploadProgress :=
  flat_map (fun ev => match ev with
                      | EvTransport _ run => emitted run
                      | _ => []
                      end) evs.

(** The variables of [uploadWithRetry], with the number of calls made
    and of suspension points passed. *)
Record LoopState : Type := mkState {
  presignConfig : option PresignConfig;
  lastError : option UploadError;
  initCalls : nat;
  transportCalls : nat;
  clock : nat
}.

Definition initialState : LoopState :=
  {| presignConfig := None; lastError := None;
     initCalls := 0; transportCalls := 0; clock := 0 |}.

Section Loop.

Variable config : UploaderConfig.
Variable transport : Transport.
Variable file : File.
Variable options : UploadOptions.
Variable world : World.

Let retryConfig : RetryPolicy := mergeRetry (c_retry config).

(** [transport.upload(presignConfig, file, transportOptions)] *)
Definition callTransport (d : PresignConfig) (st : LoopState)
    : list Event * LoopState * (UploadResult + Thrown) :=
  let transportOptions :=
    {| onProgress := o_onProgress options;
       signal := (fun s : Signal => s (clock st)) <$> o_signal options;
       progressIntervalMs := c_progressIntervalMs config |} in
  let run := transport d file transportOptions (w_net world (transportCalls st)) in
  ([EvTransport d run],
   {| presignConfig := presignConfig st; lastError := lastError st;
      initCalls := initCalls st; transportCalls := S (transportCalls st);
      clock := S (clock st) |},
   outcome run).

(** [!presignConfig || (lastError && requiresReinit(lastError) &&
    retryConfig.reinitOnAuthError)] *)
Definition needsInit (st : LoopState) : bool :=
  match presignConfig st with
  | None => true
  | Some _ =>
      match lastError st with
      | Some e => requiresReinit e && p_reinitOnAuthError retryConfig
      | None => false
      end
  end.

(** The [try] block of one attempt. *)
Definition tryBlock (st : LoopState)
    : list Event * LoopState * (UploadResult + Thrown) :=
  if aborted (o_signal options) (clock st) then
    ([], st, inr (TUploadError (normalizeError (TError "Error" "Aborted") upload unexpected)))
  else if needsInit st then
    let r := initializePresign config file (w_init world (initCalls st)) in
    match r with
    | inl e =>
        ([EvInit r],
         {| presignConfig := presignConfig st; lastError := lastError st;
            initCalls := S (initCalls st); transportCalls := transportCalls st;
            clock := S (clock st) |},
         inr (TUploadError e))
    | inr d =>
        let st1 :=
          {| presignConfig := Some d; lastError := lastError st;
             initCalls := S (initCalls st); transportCalls := transportCalls st;
             clock := S (clock st) |} in
        let '(evs, st2, res) := callTransport d st1 in
        (EvInit r :: evs, st2, res)
    end
  else
    match presignConfig st with
    | Some d => callTransport d st
    | None => ([], st, inr (TValue JUndefined))   (* excluded by [needsInit] *)
    end.

(** The error of the [catch] block:
    [normalizeError(error, presignConfig ? 'upload' : 'init')]. *)
Definition caught (st1 : LoopState) (error : Thrown) : UploadError :=
  normalizeError error
    (match presignConfig st1 with Some _ => upload | None => Errors.init end)
    unexpected.

(** The state in which the next iteration starts: [lastError] is set and
    the sleep has passed. *)
Definition afterCatch (st1 : LoopState) (uploadError : UploadError) : LoopState :=
  {| presignConfig := presignConfig st1; lastError := Some uploadError;
     initCalls := initCalls st1; transportCalls := transportCalls st1;
     clock := S (clock st1) |}.

(** The value of [normalizeError(new Error('Aborted'), 'upload')], which
    the [try] block throws when it finds the signal aborted: the name of
    a plain [Error] is neither AbortError nor TimeoutError. *)
Definition abortedCheckError : UploadError :=
  {| message := "Aborted"; phase := upload; code := NETWORK; status := None;
     detail := Some (DError "Error" "Aborted") |}.

(** The loop [for (attempt = 1; attempt <= retries + 1; attempt++)],
    by recursion on the number [n] of iterations still allowed; with no
    iteration left, the [throw] after the loop. *)
Fixpoint attempts (n : nat) (attempt : Z) (st : LoopState)
    : list Event * (UploadResult + Thrown) :=
  match n with
  | O =>
      ([], inr match lastError st with
               | Some e => TUploadError e
               | None => TError "Error" "Upload failed for unknown reason"
               end)
  | S n' =>
      let '(evs, st1, res) := tryBlock st in
      match res with
      | inl result => (evs, inl result)
      | inr error =>
          let uploadError := caught st1 error in
          if p_retries retryConfig + 1 <=? attempt then
            (evs, inr (TUploadError uploadError))
          else if negb (isRetryableError uploadError) then
            (evs, inr (TUploadError uploadError))
          else if aborted (o_signal options) (clock st1) then
            (evs, inr (TUploadError uploadError))
          else
            let delay := calculateRetryDelay attempt retryConfig in
            let '(evs', res') :=
              attempts n' (attempt + 1) (afterCatch st1 uploadError) in
            (evs ++ EvSleep delay :: evs', res')
      end
  end.

Definition uploadWithRetry : list Event * (UploadResult + Thrown) :=
  attempts (Z.to_nat (p_retries retryConfig + 1)) 1 initialState.

End Loop.

End Uploader.
Import Uploader.

(** ** createUploader.ts: several files at once *)

Module Many.

(** *** ConcurrencyController

    A queued closure is represented by the index of the file whose task
    it starts.  Each operation returns, next to the new state, the tasks
    it starts (the calls of [executeTask] it makes), in order. *)

Record ConcurrencyController : Type := mkController {
  running : Z;
  queue : list nat;
  maxConcurrency : Z
}.

Definition newConcurrencyController (maxConcurrency : Z) : ConcurrencyController :=
  {| running := 0; queue := []; maxConcurrency := maxConcurrency |}.

(** [executeTask] up to its [await]: [this.running++], then the task runs. *)
Definition executeTask (c : ConcurrencyController) (task : nat)
    : ConcurrencyController * list nat :=
  ({| running := running c + 1; queue := queue c;
      maxConcurrency := maxConcurrency c |}, [task]).

Definition execute (c : ConcurrencyController) (task : nat)
    : ConcurrencyController * list nat :=
  if running c <? maxConcurrency c then executeTask c task
  else ({| running := running c; queue := queue c ++ [task];
           maxConcurrency := maxConcurrency c |}, []).

Definition processQueue (c : ConcurrencyController)
    : ConcurrencyController * list nat :=
  if (0 <? Z.of_nat (length (queue c))) && (running c <? maxConcurrency c) then
    match queue c with
    | nextTask :: rest =>
        executeTask {| running := running c; queue := rest;
                       maxConcurrency := maxConcurrency c |} nextTask
    | [] => (c, [])
    end
  else (c, []).

(** The [finally] of [executeTask], run when the task has settled. *)
Definition finally (c : ConcurrencyController) : ConcurrencyController * list nat :=
  processQueue {| running := running c - 1; queue := queue c;
                  maxConcurrency := maxConcurrency c |}.

(** *** uploadMany as a scheduler

    [inFlight]: the tasks started and not yet settled; [started]: every
    task started so far, in the order of the starts. *)

Record Batch : Type := mkBatch {
  controller : ConcurrencyController;
  inFlight : list nat;
  started : list nat
}.

Definition startTasks (b : Batch) (r : ConcurrencyController * list nat) : Batch :=
  {| controller := r.1; inFlight := inFlight b ++ r.2; started := started b ++ r.2 |}.

(** [files.map((file, index) => controller.execute(...))] *)
Definition submit (b : Batch) (tasks : list nat) : Batch :=
  fold_left (fun b task => startTasks b (execute (controller b) task)) tasks b.

(** [concurrency = 3] by default. *)
Definition uploadManyStart (files : nat) (concurrency : option Z) : Batch :=
  submit {| controller := newConcurrencyController (default 3 concurrency);
            inFlight := []; started := [] |}
         (seq 0 files).

Definition remove_task (t : nat) (l : list nat) : list nat :=
  filter (fun x => x ≠ t) l.

(** The task [t], in flight, settles. *)
Definition settle (b : Batch) (t : nat) : Batch :=
  startTasks {| controller := controller b; inFlight := remove_task t (inFlight b);
                started := started b |}
             (finally (controller b)).

(** The states [uploadMany] goes through after the synchronous [map]. *)
Inductive reachable (files : nat) (concurrency : option Z) : Batch -> Prop :=
| reach_start : reachable files concurrency (uploadManyStart files concurrency)
| reach_settle b t :
    reachable files concurrency b ->
    t ∈ inFlight b ->
    reachable files concurrency (settle b t).

(** What holds of the scheduler once the tasks [submitted] have been
    handed to [execute] under the bound [k]. *)
Record batchInv (k : Z) (submitted : list nat) (b : Batch) : Prop := mkBatchInv {
  inv_running : running (controller b) = Z.of_nat (length (inFlight b));
  inv_max : maxConcurrency (controller b) = k;
  inv_order : started b ++ queue (controller b) = submitted;
  inv_bound : running (controller b) <= k;
  inv_busy : queue (controller b) = [] \/ running (controller b) = k;
  inv_nodup : NoDup (inFlight b);
  inv_sub : forall t, t ∈ inFlight b -> t ∈ started b
}.

(** *** upload: the combined signal *)

(** The signal of [upload]'s own controller: aborted once [cancel] has
    been called ([cancelled]) or the caller's signal has fired. *)
Definition combinedSignal (cancelled : Signal) (signal : option Signal) : Signal :=
  fun t => cancelled t || aborted signal t.

Definition UploaderImpl_upload (config : UploaderConfig) (file : File) (opts : UploadOptions)
    (cancelled : Signal) (world : World) : list Event * (UploadResult + Thrown) :=
  uploadWithRetry config (createTransport (c_transport config)) file
    {| o_onProgress := o_onProgress opts;
       o_signal := Some (combinedSignal cancelled (o_signal opts)) |}
    world.

(** *** Overall progress *)

(** The [forEach] of [updateOverallProgress], from index [index] on. *)
Fixpoint sumProgress (index : nat) (files : list File)
    (progressMap : gmap nat UploadProgress) (totalBytes totalSent : Z) : Z * Z :=
  match files with
  | [] => (totalBytes, totalSent)
  | file :: rest =>
      let totalBytes := totalBytes + f_size file in
      let totalSent :=
        match progressMap !! index with
        | Some progress => totalSent + bytesSent progress
        | None => totalSent
        end in
      sumProgress (S index) rest progressMap totalBytes totalSent
  end.

(** The value passed to [onOverallProgress], if the callback is given. *)
Definition updateOverallProgress (onOverallProgress : bool) (files : list File)
    (progressMap : gmap nat UploadProgress) : option UploadProgress :=
  if negb onOverallProgress then None
  else
    let '(totalBytes, totalSent) := sumProgress 0 files progressMap 0 0 in
    let percent :=
      if 0 <? totalBytes then round_percent totalSent totalBytes else JInt 0 in
    Some {| bytesSent := totalSent; totalBytes := totalBytes; percent := percent |}.

(** The [onProgress] that [uploadMany] hands to the upload of file
    [index]: record the value, then recompute the overall progress. *)
Definition onFileProgress (onOverallProgress : bool) (files : list File)
    (progressMap : gmap nat UploadProgress) (index : nat) (progress : UploadProgress)
    : gmap nat UploadProgress * option UploadProgress :=
  let progressMap := <[index := progress]> progressMap in
  (progressMap, updateOverallProgress onOverallProgress files progressMap).

(** The overall values emitted for a sequence of per-file progress calls. *)
Fixpoint overallRun (onOverallProgress : bool) (files : list File)
    (progressMap : gmap nat UploadProgress) (ticks : list (nat * UploadProgress))
    : list UploadProgress :=
  match ticks with
  | [] => []
  | (index, progress) :: rest =>
      let (progressMap', o) :=
        onFileProgress onOverallProgress files progressMap index progress in
      match o with
      | Some overall => overall :: overallRun onOverallProgress files progressMap' rest
      | None => overallRun onOverallProgress files progressMap' rest
      end
  end.

End Many.
Import Many.

(** ** Concrete scenarios, after the test suite *)

Module Scenario.

Definition testFile : File :=
  {| f_name := "test.png"; f_size := 1024; f_type := "image/png" |}.

Definition putDescriptor : PresignConfig :=
  {| mode := put;
     uploadUrl := Some "https://test-bucket.s3.amazonaws.com/test-key";
     key := Some "test-key";
     headers := Some [("Content-Type", "image/png")];
     fields := None; postFileFieldName := None; expiresAt := None |}.

Definition postDescriptor : PresignConfig :=
  {| mode := post;
     uploadUrl := Some "https://test-bucket.s3.amazonaws.com";
     key := Some "test-key-post";
     headers := None;
     fields := Some [("key", "test-key-post"); ("bucket", "test-bucket");
                     ("Policy", "test-policy"); ("X-Amz-Signature", "test-signature")];
     postFileFieldName := None; expiresAt := None |}.

(** [{ mode: 'put' }]: neither [uploadUrl] nor [key]. *)
Definition incompleteDescriptor : PresignConfig :=
  {| mode := put; uploadUrl := None; key := None; headers := None;
     fields := None; postFileFieldName := None; expiresAt := None |}.

Definition initWith (mapResponse : JsValue -> Thrown + PresignConfig) : InitConfig :=
  {| i_url := "/api/upload/init"; i_method := Some POST; i_headers := None;
     i_buildPayload := Some (fun f => inr (JObj [("filename", JStr (f_name f))]));
     i_mapResponse := mapResponse |}.


Definition retryOf (n : Z) (reinit : bool) : RetryConfig :=
  {| retries := Value n; backoff := Value exponential; minDelayMs := Value 100;
     maxDelayMs := Value 1000; reinitOnAuthError := Value reinit |}.

Definition configOf (d : PresignConfig) (n : Z) (reinit : bool) : UploaderConfig :=
  {| c_init := initWith (fun _ => inr d); c_retry := Some (retryOf n reinit);
     c_transport := Some xhr; c_progressIntervalMs := None |}.

Definition jsonResponse (st : Z) (text : string) (body : JsValue) : Response :=
  {| resp_status := st; resp_statusText := text; resp_etag := None;
     resp_location := None; resp_json := Some body; resp_text := None |}.

Definition loadWith (st : Z) (text : string) : NetScript :=
  {| net_xhr := {| progressEvents := [];
                   ending := XhrLoad st text None None "" None |};
     net_fetch := FetchResponds (jsonResponse st text JNull) |}.

(** The init endpoint always answers 200; the store answers 403 to the
    first upload and 200 afterwards. *)
Definition expiresOnce : World :=
  {| w_init := fun _ => FetchResponds (jsonResponse 200 "OK" JNull);
     w_net := fun n => match n with
                       | O => loadWith 403 "Forbidden"
                       | _ => loadWith 200 "OK"
                       end |}.

(** The init endpoint answers 403 to the first request and 200
    afterwards; the store always answers 200. *)
Definition initExpiresOnce : World :=
  {| w_init := fun n => match n with
                        | O => FetchResponds (jsonResponse 403 "Forbidden" JNull)
                        | _ => FetchResponds (jsonResponse 200 "OK" JNull)
                        end;
     w_net := fun _ => loadWith 200 "OK" |}.

(** The store answers 403 to the first upload, and the init endpoint
    answers 403 to the request that follows it; 200 otherwise. *)
Definition reinitExpires : World :=
  {| w_init := fun n => match n with
                        | 1%nat => FetchResponds (jsonResponse 403 "Forbidden" JNull)
                        | _ => FetchResponds (jsonResponse 200 "OK" JNull)
                        end;
     w_net := fun n => match n with
                       | O => loadWith 403 "Forbidden"
                       | _ => loadWith 200 "OK"
                       end |}.

Definition alwaysOk : World :=
  {| w_init := fun _ => FetchResponds (jsonResponse 200 "OK" JNull);
     w_net := fun _ => loadWith 200 "OK" |}.

Definition noOptions : UploadOptions :=
  {| o_onProgress := false; o_signal := None |}.

(** A signal that is aborted before the call. *)
Definition abortedOptions : UploadOptions :=
  {| o_onProgress := false; o_signal := Some (fun _ => true) |}.

(** A multipart upload of a 10-byte file: the body on the wire is longer
    than the file. *)
Definition smallFile : File :=
  {| f_name := "a.txt"; f_size := 10; f_type := "text/plain" |}.

Definition multipartScript : NetScript :=
  {| net_xhr := {| progressEvents := [(1000, {| lengthComputable := true;
                                               loaded := 20; total := 20 |})];
                   ending := XhrLoad 204 "No Content" None None "" None |};
     net_fetch := FetchResponds (jsonResponse 204 "No Content" JNull) |}.

Definition progressOptions : TransportOptions :=
  {| onProgress := true; signal := None; progressIntervalMs := None |}.

(** Three progress events within 60 ms, the last one with all the
    bytes sent. *)
Definition burstScript : XhrScript :=
  {| progressEvents :=
       [(1000, {| lengthComputable := true; loaded := 100; total := 1024 |});
        (1050, {| lengthComputable := true; loaded := 600; total := 1024 |});
        (1060, {| lengthComputable := true; loaded := 1024; total := 1024 |})];
     ending := XhrLoad 200 "OK" None None "" None |}.

End Scenario.
Import Scenario.

(** ** What is observed of a run *)

Module Observe.

(** The trace of an attempt that calls the Initializer, and of what
    follows: the call; when it returned a descriptor, the Transport call
    on that descriptor right after it; when it failed, nothing more in
    that attempt (the loop ends there, or sleeps before the next one). *)
Definition startsWithInit (next : list Event) : Prop :=
  exists r rest,
    next = EvInit r :: rest /\
    match r with
    | inr d' => exists run' rest', rest = EvTransport d' run' :: rest'
    | inl _ => rest = [] \/ exists ms tl, rest = EvSleep ms :: tl
    end.

(** The progress events for which the listener asks the throttler:
    those with a known length. *)
Definition gated (events : list (Z * ProgressEvent)) : list (Z * ProgressEvent) :=
  List.filter (fun ne => lengthComputable ne.2) events.

(** What the progress callback receives of these events, given the
    answer of the throttler to each: the events that the throttler lets
    through and those with [loaded = total]. *)
Fixpoint delivered (events : list (Z * ProgressEvent)) (answers : list bool)
    : list UploadProgress :=
  match events, answers with
  | (_, event) :: events', answer :: answers' =>
      if answer || (loaded event =? total event)
      then progressOf event :: delivered events' answers'
      else delivered events' answers'
  | _, _ => []
  end.

Definition isInit (ev : Event) : bool :=
  match ev with EvInit _ => true | _ => false end.

(** An Initializer call that returned a descriptor. *)
Definition isInitOk (ev : Event) : bool :=
  match ev with EvInit (inr _) => true | _ => false end.

Definition isTransport (ev : Event) : bool :=
  match ev with EvTransport _ _ => true | _ => false end.

Definition isSleep (ev : Event) : bool :=
  match ev with EvSleep _ => true | _ => false end.

(** The number of events of a kind. *)
Fixpoint countEv (P : Event -> bool) (evs : list Event) : nat :=
  match evs with
  | [] => 0
  | ev :: rest => ((if P ev then 1 else 0) + countEv P rest)%nat
  end.

(** The descriptor cached after the events [evs], when [cur] was cached
    before them: the one returned by the last Initializer call that
    succeeded. *)
Fixpoint descriptorAfter (cur : option PresignConfig) (evs : list Event)
    : option PresignConfig :=
  match evs with
  | [] => cur
  | EvInit (inr d) :: rest => descriptorAfter (Some d) rest
  | _ :: rest => descriptorAfter cur rest
  end.

(** Every Transport call among [evs] is made on the descriptor cached
    at that point. *)
Fixpoint fedByInitializer (cur : option PresignConfig) (evs : list Event) : Prop :=
  match evs with
  | [] => True
  | EvInit (inr d) :: rest => fedByInitializer (Some d) rest
  | EvTransport d _ :: rest => cur = Some d /\ fedByInitializer cur rest
  | _ :: rest => fedByInitializer cur rest
  end.

(** Whether a string holds a double-quote character. *)
Fixpoint hasQuote (s : string) : bool :=
  match s with
  | EmptyString => false
  | String c s' => Ascii.eqb c quote || hasQuote s'
  end.

(** The sum of the sizes of the files. *)
Definition totalSize (files : list File) : Z :=
  fold_right (fun f acc => f_size f + acc) 0 files.

(** The bytes recorded for the files from index [index] on; a file with
    no entry counts for nothing. *)
Fixpoint sentFrom (index : nat) (files : list File)
    (progressMap : gmap nat UploadProgress) : Z :=
  match files with
  | [] => 0
  | _ :: rest =>
      match progressMap !! index with
      | Some progress => bytesSent progress
      | None => 0
      end + sentFrom (S index) rest progressMap
  end.

End Observe.
Import Observe.

(** ** Binary64 arithmetic on counts *)

Section Binary64Facts.


Lemma roundHalfEven_le n d N :
  0 < d -> n <= N * d -> roundHalfEven n d <= N.
Proof.
  intros Hd Hn. unfold roundHalfEven.
  pose proof (Z.div_mod n d ltac:(lia)) as Hdm.
  pose proof (Z.mod_pos_bound n d Hd) as Hr.
  assert (n / d <= N) by (apply Z.div_le_upper_bound; lia).
  destruct (2 * (n mod d) <? d) eqn:H1; [ lia | ].
  apply Z.ltb_ge in H1.
  assert (n / d < N) by nia.
  destruct (d <? 2 * (n mod d)); [ lia | ].
  destruct (Z.even (n / d)); lia.
Qed.

Lemma roundHalfEven_ge n d N :
  0 < d -> N * d <= n -> N <= roundHalfEven n d.
Proof.
  intros Hd Hn. unfold roundHalfEven.
  assert (N <= n / d) by (apply Z.div_le_lower_bound; lia).
  destruct (2 * (n mod d) <? d); [ lia | ].
  destruct (d <? 2 * (n mod d)); [ lia | ].
  destruct (Z.even (n / d)); lia.
Qed.

Lemma roundHalfEven_exact N d : 0 < d -> roundHalfEven (N * d) d = N.
Proof.
  intros Hd.
  apply Z.le_antisymm;
    [ apply roundHalfEven_le | apply roundHalfEven_ge ]; lia.
Qed.

Lemma divide_same t : 0 < t -> divide t t = {| dm := 2 ^ 52; de := -52 |}.
Proof.
  intros Ht. unfold divide.
  replace (t =? 0) with false by lia.
  rewrite (Z.abs_eq t) by lia.
  replace (53 + Z.log2 t - Z.log2 t) with 53 by lia.
  change (scaled t t 53) with (t * 2 ^ 53, t). cbn [fst snd].
  replace (t * 2 ^ 53 <=? t * 2 ^ 53) with true by lia.
  change (53 - 1) with 52.
  change (scaled t t 52) with (t * 2 ^ 52, t). cbn [fst snd].
  rewrite (Z.mul_comm t (2 ^ 52)), roundHalfEven_exact by lia.
  rewrite (Z.sgn_pos t) by lia. reflexivity.
Qed.

Lemma round_percent_full t : 0 < t -> round_percent t t = JInt 100.
Proof.
  intros Ht. unfold round_percent.
  replace (t =? 0) with false by lia.
  rewrite divide_same by exact Ht. reflexivity.
Qed.

Lemma round_percent_none t : t <> 0 -> round_percent 0 t = JInt 0.
Proof.
  intros Ht. unfold round_percent.
  replace (t =? 0) with false by lia. reflexivity.
Qed.



Lemma roundHalfEven_nearest n d :
  0 < d -> 2 * Z.abs (n - d * roundHalfEven n d) <= d.
Proof.
  intros Hd. unfold roundHalfEven.
  pose proof (Z.div_mod n d ltac:(lia)) as Hdm.
  pose proof (Z.mod_pos_bound n d Hd) as Hr.
  destruct (2 * (n mod d) <? d) eqn:H1; [ lia | ].
  destruct (d <? 2 * (n mod d)) eqn:H2; [ lia | ].
  destruct (Z.even (n / d)); lia.
Qed.

Lemma scaled_nonneg n d k : 0 <= k -> scaled n d k = (n * 2 ^ k, d).
Proof. intros Hk. unfold scaled. replace (0 <=? k) with true by lia. reflexivity. Qed.

(** The quotient of two counts [0 < a <= b]: a significand in
    [[0, 2 ^ k]] over [2 ^ k] with [k >= 52], within half a unit of the
    exact quotient. *)
Lemma divide_fraction a b :
  0 < a <= b ->
  exists m k, divide a b = {| dm := m; de := - k |} /\
    52 <= k /\ 0 <= m <= 2 ^ k /\
    2 * Z.abs (a * 2 ^ k - b * m) <= b.
Proof.
  intros [Ha Hab]. unfold divide.
  replace (a =? 0) with false by lia.
  rewrite (Z.abs_eq a), (Z.abs_eq b), (Z.sgn_pos a), (Z.sgn_pos b) by lia.
  pose proof (Z.log2_le_mono a b Hab) as Hlog.
  set (k0 := 53 + Z.log2 b - Z.log2 a).
  assert (Hk0 : 53 <= k0) by (unfold k0; lia).
  set (k := if (scaled a b k0).2 * 2 ^ 53 <=? (scaled a b k0).1 then k0 - 1 else k0).
  assert (Hk : 52 <= k) by (unfold k; destruct (_ <=? _); lia).
  rewrite (scaled_nonneg a b k) by lia. cbn [fst snd].
  exists (roundHalfEven (a * 2 ^ k) b), k.
  assert (Hp : 0 < 2 ^ k) by (apply Z.pow_pos_nonneg; lia).
  split; [ f_equal; lia | ]. split; [ exact Hk | ]. split.
  - split.
    + apply roundHalfEven_ge; [ lia | nia ].
    + apply roundHalfEven_le; [ lia | nia ].
  - apply roundHalfEven_nearest. lia.
Qed.

Lemma log2_below x k : 0 < x -> x < 2 ^ k -> Z.log2 x < k.
Proof.
  intros Hx Hlt. destruct (Z.le_gt_cases k 0) as [Hk|Hk].
  - assert (2 ^ k <= 2 ^ 0) by (apply Z.pow_le_mono_r; lia). change (2 ^ 0) with 1 in *. lia.
  - apply Z.log2_lt_pow2; lia.
Qed.

(** A fraction [m / 2 ^ k] of at most one, times 100: a double of at
    most 100, within [2 ^ (k - 46)] units of [2 ^ - k] of the
    exact product. *)
Lemma times_100_fraction m k :
  52 <= k -> 0 <= m <= 2 ^ k ->
  exists m' k', times {| dm := m; de := - k |} 100 = {| dm := m'; de := - k' |} /\
    46 <= k' <= k /\ 0 <= m' <= 100 * 2 ^ k' /\
    2 * Z.abs (100 * m - m' * 2 ^ (k - k')) <= 2 ^ (k - k').
Proof.
  intros Hk [Hm0 Hm]. unfold times, round53. cbn [dm de].
  rewrite (Z.abs_eq (m * 100)) by lia.
  destruct (m * 100 <? 2 ^ 53) eqn:Hsmall.
  - exists (m * 100), k. split; [ reflexivity | ].
    split; [ lia | ]. split; [ lia | ].
    rewrite Z.sub_diag. change (2 ^ 0) with 1. lia.
  - apply Z.ltb_ge in Hsmall.
    set (e := Z.log2 (m * 100) - 52).
    assert (He1 : 1 <= e).
    { unfold e. assert (53 <= Z.log2 (m * 100)); [ | lia ].
      apply Z.log2_le_pow2; lia. }
    assert (He2 : e <= k - 46).
    { unfold e. assert (Z.log2 (m * 100) < k + 7); [ | lia ].
      apply log2_below; [ lia | ].
      rewrite Z.pow_add_r by lia. change (2 ^ 7) with 128. lia. }
    assert (Hpe : 0 < 2 ^ e) by (apply Z.pow_pos_nonneg; lia).
    assert (Hsplit : 2 ^ k = 2 ^ (k - e) * 2 ^ e)
      by (rewrite <- Z.pow_add_r by lia; f_equal; lia).
    exists (roundHalfEven (m * 100) (2 ^ e)), (k - e).
    split; [ f_equal; lia | ].
    split; [ lia | ]. split.
    + split.
      * apply roundHalfEven_ge; [ lia | lia ].
      * apply roundHalfEven_le; [ lia | ]. rewrite <- Z.mul_assoc, <- Hsplit. lia.
    + replace (k - (k - e)) with e by lia.
      pose proof (roundHalfEven_nearest (m * 100) (2 ^ e) Hpe). lia.
Qed.

Lemma abs_scale c x B : 0 <= c -> 2 * Z.abs x <= B -> 2 * Z.abs (c * x) <= c * B.
Proof.
  intros Hc Hx. rewrite Z.abs_mul, (Z.abs_eq c) by exact Hc.
  replace (2 * (c * Z.abs x)) with (c * (2 * Z.abs x)) by ring.
  apply Z.mul_le_mono_nonneg_l; assumption.
Qed.

Lemma percent_error a b m m' s P z :
  0 < b -> 0 < s -> 102 <= P ->
  2 * Z.abs (a * (s * P) - b * m) <= b ->
  2 * Z.abs (100 * m - m' * s) <= s ->
  2 * Z.abs (m' - z * P) <= P ->
  Z.abs (100 * a - b * z) < b.
Proof.
  intros Hb Hs HP E1 E2 E3.
  pose proof (abs_scale 100 _ _ ltac:(lia) E1) as F1.
  pose proof (abs_scale b _ _ ltac:(lia) E2) as F2.
  pose proof (abs_scale (s * b) _ _ ltac:(nia) E3) as F3.
  assert (Hsum : (100 * a - b * z) * (s * P)
                 = 100 * (a * (s * P) - b * m) + b * (100 * m - m' * s)
                   + s * b * (m' - z * P)) by ring.
  assert (HsP : 0 < s * P) by nia.
  assert (Hbound : 2 * Z.abs ((100 * a - b * z) * (s * P))
                   <= 100 * b + b * s + s * b * P).
  { rewrite Hsum. lia. }
  clear E1 E2 E3 F1 F2 F3 Hsum.
  rewrite Z.abs_mul, (Z.abs_eq (s * P)) in Hbound by (apply Z.lt_le_incl, HsP).
  assert (Hlt : 100 * b + b * s + s * b * P < 2 * (b * (s * P))).
  { assert (b * (100 + s) < b * (s * P)); [ | lia ].
    apply Z.mul_lt_mono_pos_l; [ exact Hb | ]. nia. }
  apply (Z.mul_lt_mono_pos_r (s * P)); [ exact HsP | ].
  clear HsP Hb Hs HP. lia.
Qed.

Lemma inRange_fraction m k :
  0 <= k -> 0 <= m <= 100 * 2 ^ k -> inRange {| dm := m; de := - k |} = true.
Proof.
  intros Hk [Hm0 Hm]. unfold inRange. cbn [dm de].
  replace (- k <=? 1024) with true by lia.
  apply Z.ltb_lt. rewrite Z.abs_eq by exact Hm0.
  replace (1024 - - k) with (1024 + k) by lia.
  rewrite Z.pow_add_r by lia.
  assert (HP : 0 < 2 ^ k) by (apply Z.pow_pos_nonneg; lia).
  assert (H7 : 2 ^ 7 <= 2 ^ 1024) by (apply Z.pow_le_mono_r; lia).
  change (2 ^ 7) with 128 in H7.
  apply (Z.le_lt_trans _ (100 * 2 ^ k)); [ exact Hm | ].
  apply Z.mul_lt_mono_pos_r; [ exact HP | lia ].
Qed.

Lemma Math_round_fraction m k :
  0 < k -> Math_round {| dm := m; de := - k |} = (2 * m + 2 ^ k) / 2 ^ (1 + k).
Proof.
  intros Hk. unfold Math_round. cbn [dm de].
  replace (0 <=? - k) with false by lia.
  rewrite Z.opp_involutive. f_equal. f_equal. lia.
Qed.

(** [Math.round ((a / b) * 100)] for counts [0 <= a <= b], [0 < b]: an
    integer between 0 and 100, less than one point away from the exact
    ratio. *)
Lemma round_percent_range a b :
  0 <= a <= b -> 0 < b ->
  exists z, round_percent a b = JInt z /\ 0 <= z <= 100 /\
    Z.abs (100 * a - b * z) < b.
Proof.
  intros [Ha Hab] Hb.
  destruct (Z.eq_dec a 0) as [->|Hne].
  - exists 0. rewrite round_percent_none by lia. split; [ reflexivity | lia ].
  - unfold round_percent. replace (b =? 0) with false by lia.
    destruct (divide_fraction a b ltac:(lia)) as (m & k & -> & Hk & Hm & Hacc).
    destruct (times_100_fraction m k Hk Hm) as (m' & k' & -> & Hk' & Hm' & Hacc').
    cbv zeta. rewrite inRange_fraction by lia.
    rewrite Math_round_fraction by lia.
    eexists. split; [ reflexivity | ].
    assert (Hp : 0 < 2 ^ k') by (apply Z.pow_pos_nonneg; lia).
    assert (Hp1 : 2 ^ (1 + k') = 2 * 2 ^ k')
      by (rewrite Z.pow_add_r by lia; reflexivity).
    rewrite Hp1.
    assert (Hs : 0 < 2 ^ (k - k')) by (apply Z.pow_pos_nonneg; lia).
    assert (Hsplit : 2 ^ k = 2 ^ (k - k') * 2 ^ k')
      by (rewrite <- Z.pow_add_r by lia; f_equal; lia).
    assert (H46 : 2 ^ 46 <= 2 ^ k') by (apply Z.pow_le_mono_r; lia).
    assert (H102 : 102 <= 2 ^ 46) by (vm_compute; discriminate).
    rewrite Hsplit in Hacc. clear Hsplit Hp1 Hm.
    generalize dependent (2 ^ (k - k')). intros s Hacc' Hacc Hs.
    generalize dependent (2 ^ k'). intros P Hm' Hp H46.
    pose proof (Z.div_mod (2 * m' + P) (2 * P) ltac:(lia)) as Hdm.
    pose proof (Z.mod_pos_bound (2 * m' + P) (2 * P) ltac:(lia)) as Hr.
    set (z := (2 * m' + P) / (2 * P)) in *.
    assert (Hz : 0 <= z <= 100).
    { split.
      - apply Z.div_pos; lia.
      - assert (z < 101); [ | lia ]. apply Z.div_lt_upper_bound; lia. }
    split; [ exact Hz | ].
    apply (percent_error a b m m' s P z); try lia.

Qed.



Lemma multiply_exact x y :
  Z.abs (x * y) < 2 ^ 53 -> multiply x y = JInt (x * y).
Proof.
  intros Hlt. unfold multiply, round53. cbn [dm de].
  replace (Z.abs (x * y) <? 2 ^ 53) with true by lia.
  unfold inRange. cbn [dm de]. change (0 <=? 1024) with true. cbv iota.
  assert (2 ^ 53 < 2 ^ (1024 - 0)) by (apply Z.pow_lt_mono_r; lia).
  replace (Z.abs (x * y) <? 2 ^ (1024 - 0)) with true by lia.
  change (2 ^ 0) with 1. rewrite Z.mul_1_r. reflexivity.
Qed.

Lemma multiply_large x y :
  2 ^ 53 <= x * y ->
  multiply x y = JPosInf \/ exists v, multiply x y = JInt v /\ 2 ^ 53 <= v.
Proof.
  intros Hge. unfold multiply, round53. cbn [dm de].
  assert (H53 : 0 < 2 ^ 53) by (apply Z.pow_pos_nonneg; lia).
  rewrite (Z.abs_eq (x * y)) by lia.
  replace (x * y <? 2 ^ 53) with false by lia.
  cbn [dm de]. rewrite Z.add_0_l.
  set (d := Z.log2 (x * y) - 52).
  assert (Hd : 1 <= d).
  { unfold d. assert (53 <= Z.log2 (x * y)); [ | lia ].
    apply Z.log2_le_pow2; lia. }
  assert (Hpd : 2 <= 2 ^ d).
  { change 2 with (2 ^ 1) at 1. apply Z.pow_le_mono_r; lia. }
  assert (Hm : 2 ^ 52 <= roundHalfEven (x * y) (2 ^ d)).
  { apply roundHalfEven_ge; [ lia | ].
    rewrite <- Z.pow_add_r by lia. replace (52 + d) with (Z.log2 (x * y)) by (unfold d; lia).
    apply Z.log2_spec. lia. }
  assert (H52 : 0 < 2 ^ 52) by (apply Z.pow_pos_nonneg; lia).
  destruct (inRange _).
  - right. eexists. split; [ reflexivity | ].
    change (2 ^ 53) with (2 ^ 52 * 2).
    apply Z.mul_le_mono_nonneg; lia.
  - left. replace (0 <? roundHalfEven (x * y) (2 ^ d)) with true by lia.
    reflexivity.
Qed.

End Binary64Facts.

(** The arithmetic above against [SpecFloat]: the same quotients, the
    same ratios times 100 and the same products. *)
Example quotients_as_binary64 :
  forallb quotientAgrees
    (grid 60 ++ [(29, 200); (1, 3); (123456789, 987654321); (-29, 200); (5, -7);
                 (9007199254740991, 9007199254740992); (1, 9007199254740992);
                 (4503599627370497, 9007199254740991); (9007199254740992, 1)])
  = true.
Proof. vm_compute. reflexivity. Qed.

Example ratios_as_binary64 :
  forallb ratioAgrees
    (grid 60 ++ [(29, 200); (1, 3); (123456789, 987654321); (-29, 200); (5, -7);
                 (9007199254740991, 9007199254740992); (1, 9007199254740992);
                 (4503599627370497, 9007199254740991); (3, 1)])
  = true.
Proof. vm_compute. reflexivity. Qed.

Example products_as_binary64 :
  forallb productAgrees
    (grid 20 ++ [(3, 9007199254740994); (500, 2 ^ 1000); (2 ^ 1000, 2 ^ 100);
                 (-3, 2 ^ 1023); (9007199254740991, 9007199254740991); (0, 5);
                 (1, 2 ^ 1023); (2, 2 ^ 1023)])
  = true.
Proof. vm_compute. reflexivity. Qed.

(** 29 of 200 is 14.5 percent; the quotient 0.145 is not a double, the
    nearest one times 100 is just below 14.5, and [Math.round] gives 14. *)
Example percent_of_29_in_200 :
  round_percent 29 200 = JInt 14 /\
  round_percent 1 3 = JInt 33 /\
  round_percent 1 8 = JInt 13 /\
  round_percent 200 200 = JInt 100.
Proof. repeat split; reflexivity. Qed.

(** A ratio whose hundredfold is beyond the largest double. *)
Example percent_beyond_the_doubles :
  round_percent (2 ^ 1020) 1 = JPosInf /\
  round_percent (2 ^ 1000) 1 = JInt (100 * 2 ^ 1000).
Proof. split; vm_compute; reflexivity. Qed.

(** ** Properties of the error taxonomy *)

Section ErrorFacts.

Lemma normalizeError_code_cases name msg p dflt :
  code (normalizeError (TError name msg) p dflt) = ABORTED \/
  code (normalizeError (TError name msg) p dflt) = TIMEOUT \/
  code (normalizeError (TError name msg) p dflt) = NETWORK.
Proof.
  unfold normalizeError.
  destruct (String.eqb name "AbortError"); [ left; reflexivity | ].
  destruct (String.eqb name "TimeoutError"); [ right; left | right; right ];
    reflexivity.
Qed.

Lemma normalizeError_phase name msg p dflt :
  phase (normalizeError (TError name msg) p dflt) = p.
Proof.
  unfold normalizeError.
  destruct (String.eqb name "AbortError"); [ reflexivity | ].
  destruct (String.eqb name "TimeoutError"); reflexivity.
Qed.

(** A classified [EXPIRED] error carries status 403, a classified
    [SERVER] error a status of at least 500. *)
Lemma classified_status e :
  classified e ->
  (code e = EXPIRED -> status e = Some 403) /\
  (code e = SERVER -> exists s, status e = Some s /\ 500 <= s).
Proof.
  intros H. destruct H as [p st text body|name msg p dflt|v p dflt|p m|p m|p m d].
  - unfold createErrorFromResponse.
    destruct ((400 <=? st) && (st <? 500)) eqn:E4.
    + destruct (st =? 403) eqn:E3; cbn; split; intros; try discriminate; reflexivity.
    + destruct (500 <=? st) eqn:E5; cbn; split; intros; try discriminate.
      exists st. split; [ reflexivity | lia ].
  - destruct (normalizeError_code_cases name msg p dflt) as [Hc|[Hc|Hc]];
      rewrite Hc; split; discriminate.
  - cbn. split; discriminate.
  - cbn. split; discriminate.
  - cbn. split; discriminate.
  - cbn. split; discriminate.
Qed.

(** On classified errors the predicate depends on the kind alone; no
    retry policy enters it. *)
Lemma isRetryableError_classified e :
  classified e ->
  isRetryableError e =
    match code e with
    | NETWORK | TIMEOUT | SERVER | EXPIRED => true
    | BAD_REQUEST | ABORTED => false
    end.
Proof.
  intros H. destruct (classified_status e H) as [Hx Hs].
  unfold isRetryableError. destruct (code e) eqn:Hc; cbn; try reflexivity.
  - rewrite (Hx eq_refl). reflexivity.
  - destruct (Hs eq_refl) as [s [-> Hge]]. cbn.
    replace (s =? 0) with false by lia. replace (500 <=? s) with true by lia.
    reflexivity.
Qed.

Lemma requiresReinit_iff e :
  requiresReinit e = true <-> code e = EXPIRED /\ status e = Some 403.
Proof.
  unfold requiresReinit, status_is. split.
  - intros H. apply andb_true_iff in H as [Hc Hs].
    destruct (code e); try discriminate. split; [ reflexivity | ].
    destruct (status e) as [z|]; [ | discriminate ].
    apply Z.eqb_eq in Hs. congruence.
  - intros [-> ->]. reflexivity.
Qed.

End ErrorFacts.

(** C1 (as the code behaves): [isRetryableError] takes the error alone.
    For the EXPIRED error classified from a 403 response it answers
    [true], and with [reinitOnAuthError = false] the retry loop goes on
    to a second attempt against the same descriptor, which here
    succeeds: an EXPIRED error is retried although the reinit flag is
    not set. *)
Theorem expired_is_retried_without_reinit_flag :
  let e := createErrorFromResponse upload 403 "Forbidden" JUndefined in
  code e = EXPIRED /\
  isRetryableError e = true /\
  p_reinitOnAuthError (mergeRetry (c_retry (configOf putDescriptor 1 false))) = false /\
  exists failed succeeded result,
    outcome failed = inr (TUploadError e) /\
    uploadWithRetry (configOf putDescriptor 1 false) XHRTransport testFile
      noOptions expiresOnce
    = ([EvInit (inr putDescriptor); EvTransport putDescriptor failed;
        EvSleep 100; EvTransport putDescriptor succeeded],
       inl result).
Proof.
  cbn zeta. repeat split.
  eexists _, _, _. split; [ | vm_compute; reflexivity ].
  vm_compute. reflexivity.
Qed.

(** ** Properties of the retry loop *)

Section LoopFacts.

Variable config : UploaderConfig.
Variable transport : Transport.
Variable file : File.
Variable options : UploadOptions.
Variable world : World.

#[local] Abbreviation policy := (mergeRetry (c_retry config)).
#[local] Abbreviation run_try := (tryBlock config transport file options world).
#[local] Abbreviation run_attempts := (attempts config transport file options world).

Lemma attempts_S n attempt st :
  run_attempts (S n) attempt st =
    let '(evs, st1, res) := run_try st in
    match res with
    | inl result => (evs, inl result)
    | inr error =>
        if p_retries policy + 1 <=? attempt then
          (evs, inr (TUploadError (caught st1 error)))
        else if negb (isRetryableError (caught st1 error)) then
          (evs, inr (TUploadError (caught st1 error)))
        else if aborted (o_signal options) (clock st1) then
          (evs, inr (TUploadError (caught st1 error)))
        else
          let '(evs', res') :=
            run_attempts n (attempt + 1) (afterCatch st1 (caught st1 error)) in
          (evs ++ EvSleep (calculateRetryDelay attempt policy) :: evs', res')
    end.
Proof. reflexivity. Qed.

(** The iteration that is allowed to go on, spelled out. *)
Lemma attempts_retry n attempt st evs st1 error :
  run_try st = (evs, st1, inr error) ->
  attempt < p_retries policy + 1 ->
  isRetryableError (caught st1 error) = true ->
  aborted (o_signal options) (clock st1) = false ->
  run_attempts (S n) attempt st =
    (evs ++ EvSleep (calculateRetryDelay attempt policy)
         :: (run_attempts n (attempt + 1) (afterCatch st1 (caught st1 error))).1,
     (run_attempts n (attempt + 1) (afterCatch st1 (caught st1 error))).2).
Proof.
  intros Htry Hlt Hretry Hsig. rewrite attempts_S, Htry.
  replace (p_retries policy + 1 <=? attempt) with false by lia.
  rewrite Hretry, Hsig. cbn [negb].
  destruct (run_attempts n (attempt + 1) _) as [evs' res']. reflexivity.
Qed.

(** The events of an iteration come first; what follows, if anything,
    starts with the sleep. *)
Lemma attempts_events n attempt st :
  exists tail,
    (run_attempts (S n) attempt st).1 = (run_try st).1.1 ++ tail /\
    (tail = [] \/ exists ms tl, tail = EvSleep ms :: tl).
Proof.
  rewrite attempts_S. destruct (run_try st) as [[evs st1] res]. cbn [fst].
  destruct res as [result|error].
  - exists []. rewrite app_nil_r. auto.
  - destruct (p_retries policy + 1 <=? attempt);
      [ exists []; rewrite app_nil_r; auto | ].
    destruct (negb (isRetryableError (caught st1 error)));
      [ exists []; rewrite app_nil_r; auto | ].
    destruct (aborted (o_signal options) (clock st1));
      [ exists []; rewrite app_nil_r; auto | ].
    destruct (run_attempts n (attempt + 1) _) as [evs' res'].
    eexists. split; [ reflexivity | right; eauto ].
Qed.

(** An iteration that finds the signal aborted does nothing and throws
    the error of the check. *)
Lemma tryBlock_aborted st :
  aborted (o_signal options) (clock st) = true ->
  run_try st = ([], st, inr (TUploadError abortedCheckError)).
Proof. intros H. unfold tryBlock. rewrite H. reflexivity. Qed.

Lemma attempts_aborted n attempt st :
  aborted (o_signal options) (clock st) = true ->
  run_attempts (S n) attempt st = ([], inr (TUploadError abortedCheckError)).
Proof.
  intros H. rewrite attempts_S, (tryBlock_aborted st H).
  unfold caught. cbn [normalizeError]. rewrite H.
  destruct (p_retries policy + 1 <=? attempt); reflexivity.
Qed.

(** An iteration whose last event is a transport call: the descriptor
    of that call is the cached one, and the iteration ends as the call
    does. *)
Lemma tryBlock_transport st evs st1 res d run :
  run_try st = (evs, st1, res) ->
  last evs = Some (EvTransport d run) ->
  presignConfig st1 = Some d /\ res = outcome run /\ lastError st1 = lastError st.
Proof.
  unfold tryBlock, callTransport.
  destruct (aborted (o_signal options) (clock st)).
  { intros [= <- <- <-]. discriminate. }
  destruct (needsInit config st) eqn:Hneed.
  - destruct (initializePresign config file _) as [e|d0].
    + intros [= <- <- <-]. discriminate.
    + intros [= <- <- <-] [= <- <-]. auto.
  - destruct (presignConfig st) as [d0|] eqn:Hd.
    + intros [= <- <- <-] [= <- <-]. auto.
    + unfold needsInit in Hneed. rewrite Hd in Hneed. discriminate.
Qed.

(** The iteration with a cached descriptor when the policy does not
    allow reinit: the Transport on the cached descriptor, nothing else. *)
Lemma tryBlock_reuse st d e :
  presignConfig st = Some d ->
  lastError st = Some e ->
  p_reinitOnAuthError policy = false ->
  aborted (o_signal options) (clock st) = false ->
  exists run, (run_try st).1.1 = [EvTransport d run].
Proof.
  intros Hd He Hflag Hsig. unfold tryBlock, needsInit, callTransport.
  rewrite Hsig, Hd, He, Hflag, andb_false_r. eexists. reflexivity.
Qed.

(** C2 (amended): when the signal is found aborted as an attempt begins,
    whether or not a descriptor is cached, the loop ends there: no
    Initializer call, no Transport call, no sleep and no further
    attempt, and the call fails with an UploadError whose phase is
    [upload]. *)
Theorem aborted_attempt_fails_at_once n attempt st :
  aborted (o_signal options) (clock st) = true ->
  exists e,
    run_attempts (S n) attempt st = ([], inr (TUploadError e)) /\
    phase e = upload.
Proof.
  intros H. exists abortedCheckError.
  split; [ apply attempts_aborted, H | reflexivity ].
Qed.

(** An iteration that needs a descriptor, on an upload that is not
    cancelled: one Initializer call, then the Transport on the
    descriptor it returned. *)
Lemma tryBlock_init st :
  needsInit config st = true ->
  aborted (o_signal options) (clock st) = false ->
  exists r,
    match r with
    | inr d' => exists run, (run_try st).1.1 = [EvInit r; EvTransport d' run]
    | inl _ => (run_try st).1.1 = [EvInit r]
    end.
Proof.
  intros Hneed Hsig.
  unfold tryBlock, callTransport. rewrite Hsig, Hneed.
  destruct (initializePresign config file _) as [e'|d'] eqn:Hi.
  - exists (inl e'). reflexivity.
  - exists (inr d'). eexists. reflexivity.
Qed.

(** An iteration whose last event is an Initializer call: the call
    failed, it was needed, and the cache is as it was. *)
Lemma tryBlock_init_failed st evs st1 res r :
  run_try st = (evs, st1, res) ->
  last evs = Some (EvInit r) ->
  needsInit config st = true /\ presignConfig st1 = presignConfig st.
Proof.
  unfold tryBlock, callTransport.
  destruct (aborted (o_signal options) (clock st)).
  { intros [= <- <- <-]. discriminate. }
  destruct (needsInit config st) eqn:Hneed.
  - destruct (initializePresign config file _) as [e|d0].
    + intros [= <- <- <-] _. auto.
    + intros [= <- <- <-]. discriminate.
  - destruct (presignConfig st) as [d0|] eqn:Hd.
    + intros [= <- <- <-]. discriminate.
    + intros [= <- <- <-]. discriminate.
Qed.

(** C3 (amended): after an attempt that fails with an EXPIRED error of
    status 403, when another attempt is allowed and the upload is not
    cancelled, the loop sleeps for the backoff delay and goes on as
    follows.  When the failure was that of a Transport call and
    [reinitOnAuthError] is set, the next event is an Initializer call,
    followed at once by the Transport call on the descriptor it
    returned, or by no Transport call in that attempt if it failed.
    When the failure was that of a Transport call and the flag is not
    set, the next event is the Transport call on the descriptor of the
    failed call, with no Initializer call before it.  When the failure
    was that of the Initializer, the next event is an Initializer call
    again, whatever the flag. *)
Theorem reinit_law n attempt st evs st1 error :
  run_try st = (evs, st1, inr error) ->
  code (caught st1 error) = EXPIRED ->
  status (caught st1 error) = Some 403 ->
  1 <= attempt < p_retries policy + 1 ->
  aborted (o_signal options) (clock st1) = false ->
  aborted (o_signal options) (S (clock st1)) = false ->
  exists next,
    (run_attempts (S (S n)) attempt st).1 =
      evs ++ EvSleep (calculateRetryDelay attempt policy) :: next /\
    (forall d run, last evs = Some (EvTransport d run) ->
       if p_reinitOnAuthError policy then startsWithInit next
       else exists run' rest, next = EvTransport d run' :: rest) /\
    (forall r, last evs = Some (EvInit r) -> startsWithInit next).
Proof.
  intros Htry Hcode Hstatus [_ Hlt] Hsig Hsig'.
  assert (Hre : requiresReinit (caught st1 error) = true)
    by (apply requiresReinit_iff; split; assumption).
  assert (Hretry : isRetryableError (caught st1 error) = true).
  { unfold isRetryableError. rewrite Hcode, Hstatus. reflexivity. }
  rewrite (attempts_retry (S n) attempt st evs st1 error Htry Hlt Hretry Hsig).
  cbn [fst]. eexists. split; [ reflexivity | ].
  set (st2 := afterCatch st1 (caught st1 error)).
  destruct (attempts_events n (attempt + 1) st2) as [tail [-> Htail]].
  assert (Hinit : needsInit config st2 = true ->
                  startsWithInit ((run_try st2).1.1 ++ tail)).
  { intros Hneed.
    destruct (tryBlock_init st2 Hneed Hsig') as [[e'|d'] Hr].
    - rewrite Hr. exists (inl e'), tail. split; [ reflexivity | exact Htail ].
    - destruct Hr as [run' ->]. exists (inr d'), (EvTransport d' run' :: tail).
      split; [ reflexivity | eauto ]. }
  split.
  - intros d run Hlast.
    destruct (tryBlock_transport st evs st1 (inr error) d run Htry Hlast)
      as (Hd & _ & _).
    destruct (p_reinitOnAuthError policy) eqn:Hflag.
    + apply Hinit. unfold needsInit, st2. cbn [presignConfig lastError afterCatch].
      rewrite Hd, Hre, Hflag. reflexivity.
    + destruct (tryBlock_reuse st2 d (caught st1 error) Hd eq_refl Hflag Hsig')
        as [run' ->].
      exists run', tail. reflexivity.
  - intros r Hlast.
    destruct (tryBlock_init_failed st evs st1 (inr error) r Htry Hlast)
      as [Hneed Hsame].
    apply Hinit. unfold needsInit in *. unfold st2.
    cbn [presignConfig lastError afterCatch]. rewrite Hsame.
    destruct (presignConfig st) as [d|]; [ | reflexivity ].
    rewrite Hre. cbn [andb].
    destruct (lastError st) as [e0|]; [ | discriminate ].
    apply andb_true_iff in Hneed as [_ Hflag]. exact Hflag.
Qed.

(** A call that starts with the signal aborted, whatever the retry
    budget. *)
Lemma uploadWithRetry_aborted :
  0 <= p_retries policy ->
  aborted (o_signal options) 0 = true ->
  uploadWithRetry config transport file options world
  = ([], inr (TUploadError abortedCheckError)).
Proof.
  intros Hr Hsig. unfold uploadWithRetry.
  destruct (Z.to_nat (p_retries policy + 1)) as [|n] eqn:Hn; [ lia | ].
  apply attempts_aborted. exact Hsig.
Qed.

End LoopFacts.

(** Every rejection of the XHR transport is a classified error. *)
Lemma XHRTransport_classified d f o net error :
  outcome (XHRTransport d f o net) = inr error ->
  exists e, error = TUploadError e /\ classified e.
Proof.
  unfold XHRTransport, XHRTransport_upload.
  destruct (signal o) as [[|]|].
  - intros [= <-]. eexists. split; [ reflexivity | apply cl_abort ].
  - destruct (xhrSend d f) as [t|req] eqn:Hsend.
    + intros [= <-]. eexists. split; [ reflexivity | ].
      unfold xhrSend, entries in Hsend.
      destruct (mode d); [ discriminate | ].
      destruct (fields d); [ discriminate | ].
      injection Hsend as <-. apply cl_normalized.
    + cbn [outcome]. unfold xhrSettle.
      destruct (ending (net_xhr net)) as [st text etag loc body parsed| | |].
      * destruct ((200 <=? st) && (st <? 300)); [ discriminate | ].
        intros [= <-]. eexists. split; [ reflexivity | apply cl_response ].
      * intros [= <-]. eexists. split; [ reflexivity | apply cl_network ].
      * intros [= <-]. eexists. split; [ reflexivity | apply cl_timeout ].
      * intros [= <-]. eexists. split; [ reflexivity | apply cl_abort ].
  - destruct (xhrSend d f) as [t|req] eqn:Hsend.
    + intros [= <-]. eexists. split; [ reflexivity | ].
      unfold xhrSend, entries in Hsend.
      destruct (mode d); [ discriminate | ].
      destruct (fields d); [ discriminate | ].
      injection Hsend as <-. apply cl_normalized.
    + cbn [outcome]. unfold xhrSettle.
      destruct (ending (net_xhr net)) as [st text etag loc body parsed| | |].
      * destruct ((200 <=? st) && (st <? 300)); [ discriminate | ].
        intros [= <-]. eexists. split; [ reflexivity | apply cl_response ].
      * intros [= <-]. eexists. split; [ reflexivity | apply cl_network ].
      * intros [= <-]. eexists. split; [ reflexivity | apply cl_timeout ].
      * intros [= <-]. eexists. split; [ reflexivity | apply cl_abort ].
Qed.

Lemma fetchCatch_classified error :
  (forall e, error <> TUploadError e) -> classified (fetchCatch error).
Proof.
  intros Hne. destruct error as [e|name msg|v]; cbn [fetchCatch].
  - destruct (Hne e). reflexivity.
  - destruct (String.eqb name "AbortError"); [ apply cl_abort | apply cl_normalized ].
  - apply cl_value.
Qed.

(** So is every rejection of the fetch transport, as long as [fetch]
    itself does not reject with an UploadError. *)
Lemma FetchTransport_classified d f o net error :
  (forall e, net_fetch net <> FetchRejects (TUploadError e)) ->
  outcome (FetchTransport d f o net) = inr error ->
  exists e, error = TUploadError e /\ classified e.
Proof.
  intros Hnet. unfold FetchTransport, FetchTransport_upload.
  destruct (fetchRequest d f) as [t|req] eqn:Hreq.
  - intros [= <-]. eexists. split; [ reflexivity | ].
    unfold fetchRequest, entries in Hreq.
    destruct (mode d); [ discriminate | ].
    destruct (fields d); [ discriminate | ].
    injection Hreq as <-. apply cl_normalized.
  - cbn [outcome]. destruct (net_fetch net) as [t|r] eqn:Hf.
    + intros [= <-]. eexists. split; [ reflexivity | ].
      apply fetchCatch_classified. intros e ->. apply (Hnet e). reflexivity.
    + destruct (negb (ok r)); [ | discriminate ].
      intros [= <-]. eexists. split; [ reflexivity | apply cl_response ].
Qed.

(** The signal is aborted before the call: nothing is done, and the
    error is the one of the check. *)
Lemma aborted_attempt_fails_at_once_witness :
  aborted (o_signal abortedOptions) (clock initialState) = true /\
  exists e,
    attempts (configOf putDescriptor 3 true) XHRTransport testFile
      abortedOptions alwaysOk 4 1 initialState = ([], inr (TUploadError e)) /\
    phase e = upload.
Proof.
  split; [ reflexivity | ].
  apply (aborted_attempt_fails_at_once (configOf putDescriptor 3 true)
           XHRTransport testFile abortedOptions alwaysOk 3 1 initialState).
  reflexivity.
Defined.

(** C2 (as stated) fails: with the signal aborted before the first
    attempt and no descriptor cached, the call does fail at once, but
    the error it throws has kind NETWORK, not ABORTED, and phase
    [upload], not [init]. *)
Lemma aborted_attempt_is_not_ABORTED :
  presignConfig initialState = None /\
  exists e,
    uploadWithRetry (configOf putDescriptor 3 true) XHRTransport testFile
      abortedOptions alwaysOk = ([], inr (TUploadError e)) /\
    code e <> ABORTED /\ phase e <> Errors.init.
Proof.
  split; [ reflexivity | ].
  exists abortedCheckError. split; [ vm_compute; reflexivity | ].
  split; discriminate.
Qed.

(** The store answers 403 once: with reinit the second attempt starts
    with one Initializer call, then the Transport. *)
Lemma reinit_law_witness :
  (exists next,
     (attempts (configOf putDescriptor 1 true) XHRTransport testFile noOptions
        expiresOnce 2 1 initialState).1 =
       (tryBlock (configOf putDescriptor 1 true) XHRTransport testFile noOptions
          expiresOnce initialState).1.1 ++ EvSleep 100 :: next /\
     startsWithInit next) /\
  (exists next,
     (attempts (configOf putDescriptor 1 false) XHRTransport testFile noOptions
        expiresOnce 2 1 initialState).1 =
       (tryBlock (configOf putDescriptor 1 false) XHRTransport testFile noOptions
          expiresOnce initialState).1.1 ++ EvSleep 100 :: next /\
     exists run' rest, next = EvTransport putDescriptor run' :: rest) /\
  (exists next,
     (attempts (configOf putDescriptor 1 false) XHRTransport testFile noOptions
        initExpiresOnce 2 1 initialState).1 =
       (tryBlock (configOf putDescriptor 1 false) XHRTransport testFile noOptions
          initExpiresOnce initialState).1.1 ++ EvSleep 100 :: next /\
     startsWithInit next).
Proof.
  split; [ | split ].
  - destruct (reinit_law (configOf putDescriptor 1 true) XHRTransport testFile
                noOptions expiresOnce 0 1 initialState
                (tryBlock (configOf putDescriptor 1 true) XHRTransport testFile
                   noOptions expiresOnce initialState).1.1
                (tryBlock (configOf putDescriptor 1 true) XHRTransport testFile
                   noOptions expiresOnce initialState).1.2
                (TUploadError (createErrorFromResponse upload 403 "Forbidden" JUndefined)))
      as (next & Htrace & Htransport & Hinitializer);
      [ reflexivity | reflexivity | reflexivity | cbn; lia
      | reflexivity | reflexivity | ].
    exists next. split; [ exact Htrace | exact (Htransport _ _ eq_refl) ].
  - destruct (reinit_law (configOf putDescriptor 1 false) XHRTransport testFile
                noOptions expiresOnce 0 1 initialState
                (tryBlock (configOf putDescriptor 1 false) XHRTransport testFile
                   noOptions expiresOnce initialState).1.1
                (tryBlock (configOf putDescriptor 1 false) XHRTransport testFile
                   noOptions expiresOnce initialState).1.2
                (TUploadError (createErrorFromResponse upload 403 "Forbidden" JUndefined)))
      as (next & Htrace & Htransport & Hinitializer);
      [ reflexivity | reflexivity | reflexivity | cbn; lia
      | reflexivity | reflexivity | ].
    exists next. split; [ exact Htrace | exact (Htransport _ _ eq_refl) ].
  - destruct (reinit_law (configOf putDescriptor 1 false) XHRTransport testFile
                noOptions initExpiresOnce 0 1 initialState
                (tryBlock (configOf putDescriptor 1 false) XHRTransport testFile
                   noOptions initExpiresOnce initialState).1.1
                (tryBlock (configOf putDescriptor 1 false) XHRTransport testFile
                   noOptions initExpiresOnce initialState).1.2
                (TUploadError (createErrorFromResponse Errors.init 403 "Forbidden" JNull)))
      as (next & Htrace & Htransport & Hinitializer);
      [ reflexivity | reflexivity | reflexivity | cbn; lia
      | reflexivity | reflexivity | ].
    exists next. split; [ exact Htrace | exact (Hinitializer _ eq_refl) ].
Defined.

(** The claim as worded fails on both sides.  Without the flag, an
    EXPIRED failure of the Initializer is followed by another
    Initializer call.  With the flag, when the Initializer call that
    follows an EXPIRED failure of the Transport is itself answered 403,
    two Initializer calls are made before the next Transport call. *)
Lemma expired_attempt_initializer_calls :
  (exists e succeeded result,
     uploadWithRetry (configOf putDescriptor 3 false) XHRTransport testFile
       noOptions initExpiresOnce
     = ([EvInit (inl e); EvSleep 100; EvInit (inr putDescriptor);
         EvTransport putDescriptor succeeded], inl result) /\
     code e = EXPIRED /\
     p_reinitOnAuthError (mergeRetry (c_retry (configOf putDescriptor 3 false)))
     = false) /\
  (exists failed e e' succeeded result,
     uploadWithRetry (configOf putDescriptor 3 true) XHRTransport testFile
       noOptions reinitExpires
     = ([EvInit (inr putDescriptor); EvTransport putDescriptor failed;
         EvSleep 100; EvInit (inl e'); EvSleep 200;
         EvInit (inr putDescriptor); EvTransport putDescriptor succeeded],
        inl result) /\
     outcome failed = inr (TUploadError e) /\ code e = EXPIRED /\
     code e' = EXPIRED /\
     p_reinitOnAuthError (mergeRetry (c_retry (configOf putDescriptor 3 true)))
     = true).
Proof.
  split.
  - eexists _, _, _. split; [ vm_compute; reflexivity | ].
    split; reflexivity.
  - eexists _, _, _, _, _. split; [ vm_compute; reflexivity | ].
    repeat split; reflexivity.
Qed.

(** The same world without reinit: the second attempt goes to the
    Transport with the descriptor of the first. *)
Example reuse_without_reinit :
  exists failed succeeded result,
    uploadWithRetry (configOf putDescriptor 3 false) XHRTransport testFile
      noOptions expiresOnce
    = ([EvInit (inr putDescriptor); EvTransport putDescriptor failed;
        EvSleep 100; EvTransport putDescriptor succeeded], inl result).
Proof. eexists _, _, _. vm_compute. reflexivity. Qed.

(** With reinit, on a store that answers 403 once. *)
Example reinit_once :
  exists failed succeeded result,
    uploadWithRetry (configOf putDescriptor 3 true) XHRTransport testFile
      noOptions expiresOnce
    = ([EvInit (inr putDescriptor); EvTransport putDescriptor failed;
        EvSleep 100; EvInit (inr putDescriptor);
        EvTransport putDescriptor succeeded], inl result).
Proof. eexists _, _, _. vm_compute. reflexivity. Qed.

(** ** Backoff *)

(** The delay whenever the product is finite and the upper bound is an
    integer that doubles count exactly: the smaller of the exact product
    and the upper bound. *)
Lemma retry_delay_value (a : Z) (cfg : RetryPolicy) (lo hi : Z) :
  1 <= a ->
  p_minDelayMs cfg = JInt lo ->
  p_maxDelayMs cfg = JInt hi ->
  0 <= lo <= hi ->
  hi <= 2 ^ 53 ->
  0 < lo \/ p_backoff cfg = linear \/ a <= 1024 ->
  calculateRetryDelay a cfg =
    JInt (Z.min (lo * match p_backoff cfg with
                      | linear => a
                      | exponential => 2 ^ (a - 1)
                      end) hi).
Proof.
  intros Ha Hlo Hhi [H0 Hle] H53 Hfinite.
  assert (Hproduct : forall f, 0 <= f ->
            Math_min (multiply lo f) (JInt hi) = JInt (Z.min (lo * f) hi)).
  { intros f Hf.
    destruct (Z.lt_ge_cases (lo * f) (2 ^ 53)) as [Hsmall|Hlarge].
    - rewrite multiply_exact; [ reflexivity | ].
      rewrite Z.abs_eq by (apply Z.mul_nonneg_nonneg; lia). exact Hsmall.
    - rewrite (Z.min_r (lo * f) hi) by lia.
      destruct (multiply_large lo f Hlarge) as [->|(v & -> & Hv)].
      + reflexivity.
      + cbn [Math_min]. f_equal. apply Z.min_r. lia. }
  unfold calculateRetryDelay. rewrite Hlo, Hhi.
  destruct (p_backoff cfg) eqn:Hb.
  - cbn [js_mul]. apply Hproduct. lia.
  - unfold Math_pow2. replace (a - 1 <? 0) with false by lia.
    destruct (a - 1 <? 1024) eqn:Hexp.
    + cbn [js_mul]. apply Hproduct. apply Z.pow_nonneg. lia.
    + apply Z.ltb_ge in Hexp.
      assert (Hpos : 0 < lo) by (destruct Hfinite as [H|[H|H]]; [ exact H | discriminate | lia ]).
      cbn [js_mul]. replace (lo =? 0) with false by lia.
      replace (0 <? lo) with true by lia. cbn [Math_min].
      f_equal. symmetry. apply Z.min_r.
      assert (2 ^ 53 <= 2 ^ (a - 1)) by (apply Z.pow_le_mono_r; lia).
      assert (0 < 2 ^ 53) by (apply Z.pow_pos_nonneg; lia).
      nia.
Qed.

(** C4 (amended): for an attempt number [a >= 1] and integer bounds
    [0 <= minDelayMs <= maxDelayMs <= 2^53], the delay is
    [min (minDelayMs * a) maxDelayMs] with linear backoff and, when
    [minDelayMs > 0] or [a <= 1024],
    [min (minDelayMs * 2^(a-1)) maxDelayMs] with exponential backoff. *)
Theorem retry_delay_formula (a : Z) (cfg : RetryPolicy) (lo hi : Z) :
  1 <= a ->
  p_minDelayMs cfg = JInt lo ->
  p_maxDelayMs cfg = JInt hi ->
  0 <= lo <= hi ->
  hi <= 2 ^ 53 ->
  match p_backoff cfg with
  | linear => calculateRetryDelay a cfg = JInt (Z.min (lo * a) hi)
  | exponential =>
      0 < lo \/ a <= 1024 ->
      calculateRetryDelay a cfg = JInt (Z.min (lo * 2 ^ (a - 1)) hi)
  end.
Proof.
  intros Ha Hlo Hhi Hle H53.
  pose proof (retry_delay_value a cfg lo hi Ha Hlo Hhi Hle H53) as Hvalue.
  destruct (p_backoff cfg).
  - apply Hvalue. right. left. reflexivity.
  - intros [Hpos|Hsmall]; apply Hvalue; [ left; exact Hpos | right; right; exact Hsmall ].
Qed.

Lemma retry_delay_formula_witness :
  calculateRetryDelay 3 DEFAULT_RETRY_CONFIG = JInt (Z.min (500 * 2 ^ (3 - 1)) 4000) /\
  calculateRetryDelay 3
    (mergeRetry (Some {| retries := Value 3; backoff := Value linear;
                         minDelayMs := Value 100; maxDelayMs := Absent;
                         reinitOnAuthError := Absent |}))
  = JInt (Z.min (100 * 3) 4000).
Proof.
  split.
  - apply (retry_delay_formula 3 DEFAULT_RETRY_CONFIG 500 4000);
      [ lia | reflexivity | reflexivity | lia | lia | left; lia ].
  - apply (retry_delay_formula 3
             (mergeRetry (Some {| retries := Value 3; backoff := Value linear;
                                  minDelayMs := Value 100; maxDelayMs := Absent;
                                  reinitOnAuthError := Absent |}))
             100 4000);
      [ lia | reflexivity | reflexivity | lia | lia ].
Defined.

(** A bound set to [undefined] overrides the default, and the delay is
    not a number. *)
Example undefined_bound_delay :
  calculateRetryDelay 3
    (mergeRetry (Some {| retries := Value 3; backoff := Value linear;
                         minDelayMs := Value 100; maxDelayMs := Undefined;
                         reinitOnAuthError := Absent |}))
  = JNaN.
Proof. reflexivity. Qed.

(** The formula of the claim fails where the product stops being a
    number: with [minDelayMs = 0] the exponential delay of attempt 1025
    is [0 * Infinity], which is NaN, where the formula gives 0. *)
Lemma retry_delay_not_a_number :
  1 <= 1025 /\
  p_minDelayMs (mergeRetry (Some {| retries := Value 1025; backoff := Absent;
                                    minDelayMs := Value 0; maxDelayMs := Absent;
                                    reinitOnAuthError := Absent |})) = JInt 0 /\
  p_maxDelayMs (mergeRetry (Some {| retries := Value 1025; backoff := Absent;
                                    minDelayMs := Value 0; maxDelayMs := Absent;
                                    reinitOnAuthError := Absent |})) = JInt 4000 /\
  0 <= 4000 /\
  calculateRetryDelay 1025
    (mergeRetry (Some {| retries := Value 1025; backoff := Absent;
                         minDelayMs := Value 0; maxDelayMs := Absent;
                         reinitOnAuthError := Absent |}))
  = JNaN /\
  JNaN <> JInt (Z.min (0 * 2 ^ (1025 - 1)) 4000).
Proof.
  split; [ lia | ]. split; [ reflexivity | ]. split; [ reflexivity | ].
  split; [ lia | ]. split; [ reflexivity | discriminate ].
Qed.

(** Above [2^53] a product is rounded to the nearest double: three
    times [2^53 + 2] is [3 * 2^53 + 6], and the delay is
    [3 * 2^53 + 8]. *)
Example large_delay_is_rounded :
  calculateRetryDelay 3
    {| p_retries := 3; p_backoff := linear; p_minDelayMs := JInt (2 ^ 53 + 2);
       p_maxDelayMs := JInt (2 ^ 60); p_reinitOnAuthError := true |}
  = JInt (3 * 2 ^ 53 + 8).
Proof. vm_compute. reflexivity. Qed.

(** The delays of the successive attempts of the test suite. *)
Example linear_delays :
  map (fun a => calculateRetryDelay a
         (mergeRetry (Some {| retries := Value 3; backoff := Value linear;
                              minDelayMs := Value 100; maxDelayMs := Absent;
                              reinitOnAuthError := Absent |})))
      [1; 2; 3] = [JInt 100; JInt 200; JInt 300].
Proof. reflexivity. Qed.

Example exponential_delays :
  map (fun a => calculateRetryDelay a (mergeRetry (Some (retryOf 3 true))))
      [1; 2; 3; 4; 5] = [JInt 100; JInt 200; JInt 400; JInt 800; JInt 1000].
Proof. reflexivity. Qed.

(** ** The Initializer *)

(** C5 (amended): when the init endpoint answers 2xx with a JSON body,
    a [mapResponse] that throws makes the Initializer throw the
    classified error [normalizeError(thrown, 'init')], whose phase is
    [init] unless the thrown value is itself an UploadError, which is
    passed on unchanged; a descriptor that [mapResponse] returns is
    returned as it is, without any check of its properties. *)
Theorem initializer_after_success config file request response data :
  initRequest (c_init config) file = inr request ->
  ok response = true ->
  resp_json response = Some data ->
  match i_mapResponse (c_init config) data with
  | inl thrown =>
      initializePresign config file (FetchResponds response) =
        inl (normalizeError thrown Errors.init "Failed to initialize presigned URL") /\
      ((forall e, thrown <> TUploadError e) ->
       phase (normalizeError thrown Errors.init "Failed to initialize presigned URL")
       = Errors.init)
  | inr d =>
      initializePresign config file (FetchResponds response) = inr d
  end.
Proof.
  intros Hreq Hok Hjson. unfold initializePresign, initializeTry.
  rewrite Hreq, Hok, Hjson. cbn [negb].
  destruct (i_mapResponse (c_init config) data) as [thrown|d]; [ | reflexivity ].
  destruct thrown as [e|name msg|v].
  - split; [ reflexivity | ]. intros He. destruct (He e). reflexivity.
  - split; [ reflexivity | ]. intros _. apply normalizeError_phase.
  - split; [ reflexivity | ]. intros _. reflexivity.
Qed.

Lemma initializer_after_success_witness :
  initializePresign
    {| c_init := initWith (fun _ => inl (TError "Error" "Mapping failed"));
       c_retry := None; c_transport := None; c_progressIntervalMs := None |}
    testFile (FetchResponds (jsonResponse 200 "OK" JNull))
  = inl {| message := "Mapping failed"; phase := Errors.init; code := NETWORK;
           status := None; detail := Some (DError "Error" "Mapping failed") |}.
Proof.
  eapply (initializer_after_success
            {| c_init := initWith (fun _ => inl (TError "Error" "Mapping failed"));
               c_retry := None; c_transport := None; c_progressIntervalMs := None |}
            testFile _ (jsonResponse 200 "OK" JNull) JNull);
    reflexivity.
Defined.

(** C5 (as stated) fails: [mapResponse] returns a descriptor of mode
    [put] with neither [uploadUrl] nor [key]; the init endpoint answers
    200.  The Initializer returns that descriptor, and the loop hands it
    to the Transport. *)
Lemma invalid_descriptor_reaches_transport :
  wellFormed incompleteDescriptor = false /\
  initializePresign (configOf incompleteDescriptor 0 true) testFile
    (FetchResponds (jsonResponse 200 "OK" JNull)) = inr incompleteDescriptor /\
  exists run res,
    uploadWithRetry (configOf incompleteDescriptor 0 true) XHRTransport testFile
      noOptions alwaysOk
    = ([EvInit (inr incompleteDescriptor); EvTransport incompleteDescriptor run], res).
Proof.
  split; [ reflexivity | ]. split; [ reflexivity | ].
  eexists _, _. vm_compute. reflexivity.
Qed.

(** ** Progress *)

Lemma progressListener_emits t now event p t' :
  progressListener t now event = (Some p, t') -> p = progressOf event.
Proof.
  unfold progressListener.
  destruct (lengthComputable event); [ | discriminate ].
  destruct (shouldEmit t now) as [emit t1].
  destruct (emit || (loaded event =? total event)); [ | discriminate ].
  intros [= <- _]. reflexivity.
Qed.

(** Every value handed to [onProgress] is built from one of the events. *)
Lemma progressRun_from_event events :
  forall t p, In p (progressRun t events) ->
    exists now event, In (now, event) events /\ p = progressOf event.
Proof.
  induction events as [|[now event] rest IH]; intros t p Hin; [ destruct Hin | ].
  cbn [progressRun] in Hin.
  destruct (progressListener t now event) as [[q|] t'] eqn:Hl.
  - destruct Hin as [<-|Hin].
    + exists now, event. split; [ left; reflexivity | ].
      eapply progressListener_emits, Hl.
    + destruct (IH t' p Hin) as (n & e & Hi & He).
      exists n, e. split; [ right; exact Hi | exact He ].
  - destruct (IH t' p Hin) as (n & e & Hi & He).
    exists n, e. split; [ right; exact Hi | exact He ].
Qed.

Lemma emitted_XHR_from_event d f o script p :
  In p (emitted (XHRTransport_upload d f o script)) ->
  exists now event, In (now, event) (progressEvents script) /\ p = progressOf event.
Proof.
  unfold XHRTransport_upload.
  destruct (signal o) as [[|]|]; try (intros []);
    (destruct (xhrSend d f); [ intros [] | ]);
    cbn [emitted]; (destruct (onProgress o); [ | intros [] ]);
    apply progressRun_from_event.
Qed.

Lemma sumProgress_totals files :
  forall index pm tb ts,
    (sumProgress index files pm tb ts).1 =
      tb + fold_right (fun f acc => f_size f + acc) 0 files.
Proof.
  induction files as [|f rest IH]; intros index pm tb ts; cbn [sumProgress].
  - cbn. lia.
  - rewrite IH. cbn [fold_right]. lia.
Qed.

(** C6 (amended): a progress value emitted by the XHR transport has
    [percent = Math.round((bytesSent / totalBytes) * 100)], computed in
    binary64; with a positive total and [0 <= bytesSent <= totalBytes]
    it is an integer of [0, 100], less than one point away from the
    exact ratio.  The overall progress of [uploadMany] has percent 0
    when its total is 0 (no division by zero), the same rounded
    product when its total is positive, and is an integer of [0, 100]
    when [0 <= bytesSent <= totalBytes]. *)
Theorem progress_percent_law :
  (forall d f o script p,
     In p (emitted (XHRTransport_upload d f o script)) ->
     percent p = round_percent (bytesSent p) (totalBytes p) /\
     (0 < totalBytes p -> 0 <= bytesSent p <= totalBytes p ->
      exists z, percent p = JInt z /\ 0 <= z <= 100 /\
        Z.abs (100 * bytesSent p - totalBytes p * z) < totalBytes p)) /\
  (forall files pm p,
     updateOverallProgress true files pm = Some p ->
     (totalBytes p = 0 -> percent p = JInt 0) /\
     (0 < totalBytes p ->
      percent p = round_percent (bytesSent p) (totalBytes p)) /\
     (0 <= bytesSent p <= totalBytes p ->
      exists z, percent p = JInt z /\ 0 <= z <= 100)).
Proof.
  split.
  - intros d f o script p Hin.
    destruct (emitted_XHR_from_event d f o script p Hin) as (now & event & _ & ->).
    cbn [progressOf percent bytesSent totalBytes] in *.
    split; [ reflexivity | ].
    intros Hpos Hr. apply round_percent_range; assumption.
  - intros files pm p. unfold updateOverallProgress. cbn [negb].
    destruct (sumProgress 0 files pm 0 0) as [tb ts].
    intros [= <-]. cbn [percent bytesSent totalBytes].
    destruct (0 <? tb) eqn:Hpos.
    + apply Z.ltb_lt in Hpos.
      split; [ lia | ]. split; [ reflexivity | ].
      intros Hr.
      destruct (round_percent_range ts tb Hr Hpos) as (z & -> & Hz & _).
      exists z. split; [ reflexivity | exact Hz ].
    + apply Z.ltb_ge in Hpos.
      split; [ reflexivity | ]. split; [ lia | ].
      intros _. exists 0. split; [ reflexivity | lia ].
Qed.

Lemma progress_percent_law_witness :
  let p := {| bytesSent := 29; totalBytes := 200; percent := JInt 14 |} in
  percent p = round_percent (bytesSent p) (totalBytes p) /\
  (0 < totalBytes p -> 0 <= bytesSent p <= totalBytes p ->
   exists z, percent p = JInt z /\ 0 <= z <= 100 /\
     Z.abs (100 * bytesSent p - totalBytes p * z) < totalBytes p).
Proof.
  intro p.
  apply (proj1 progress_percent_law putDescriptor testFile progressOptions
           {| progressEvents := [(1000, {| lengthComputable := true;
                                          loaded := 29; total := 200 |})];
              ending := XhrAbort |} p).
  left. reflexivity.
Defined.

(** C6 (as stated) fails for the overall progress: a 10-byte file sent
    as a multipart form makes the XHR transport report 20 of 20 bytes;
    [uploadMany] sets these 20 bytes against the 10 bytes of the file,
    and the overall percent is 200. *)
Lemma overall_percent_above_100 :
  emitted (XHRTransport postDescriptor smallFile progressOptions multipartScript)
    = [{| bytesSent := 20; totalBytes := 20; percent := JInt 100 |}] /\
  overallRun true [smallFile] ∅
    [(0%nat, {| bytesSent := 20; totalBytes := 20; percent := JInt 100 |})]
    = [{| bytesSent := 20; totalBytes := 10; percent := JInt 200 |}] /\
  ~ (0 <= 200 <= 100).
Proof.
  split; [ reflexivity | ]. split; [ vm_compute; reflexivity | lia ].
Qed.

(** The XHR listener has no guard for a total of 0: a length-computable
    event with [total = 0] yields [NaN]. *)
Example progress_of_empty_total :
  progressRun (newProgressThrottler None)
    [(1000, {| lengthComputable := true; loaded := 0; total := 0 |})]
  = [{| bytesSent := 0; totalBytes := 0; percent := JNaN |}].
Proof. reflexivity. Qed.

(** ** The throttler *)

Lemma shouldEmit_interval t now :
  intervalMs (shouldEmit t now).2 = intervalMs t.
Proof. unfold shouldEmit. destruct (intervalMs t <=? now - lastEmit t); reflexivity. Qed.

(** While the clock stays under [lastEmit + intervalMs], every answer is
    [false]. *)
Lemma throttlerRun_closed times :
  forall t j tj,
    0 <= intervalMs t ->
    times !! j = Some tj ->
    tj < lastEmit t + intervalMs t ->
    throttlerRun t times !! j = Some false.
Proof.
  induction times as [|now rest IH]; intros t j tj Hi Hj Hlt; [ discriminate | ].
  cbn [throttlerRun]. unfold shouldEmit.
  destruct j as [|j]; cbn in Hj.
  - injection Hj as ->.
    replace (intervalMs t <=? tj - lastEmit t) with false by lia. reflexivity.
  - destruct (intervalMs t <=? now - lastEmit t) eqn:He; cbn.
    + apply (IH _ j tj); cbn; [ exact Hi | exact Hj | lia ].
    + apply (IH _ j tj); assumption.
Qed.

Lemma throttlerRun_gap times :
  forall t i j ti tj,
    0 <= intervalMs t ->
    (i < j)%nat ->
    times !! i = Some ti ->
    times !! j = Some tj ->
    throttlerRun t times !! i = Some true ->
    tj < ti + intervalMs t ->
    throttlerRun t times !! j = Some false.
Proof.
  induction times as [|now rest IH]; intros t i j ti tj Hi Hij Hti Htj Htrue Hlt;
    [ discriminate | ].
  destruct j as [|j]; [ lia | ]. cbn in Htj.
  cbn [throttlerRun] in *. unfold shouldEmit in *.
  destruct i as [|i]; cbn in Hti.
  - injection Hti as ->.
    destruct (intervalMs t <=? ti - lastEmit t) eqn:He; cbn in Htrue;
      [ | discriminate ].
    cbn. apply (throttlerRun_closed rest _ j tj); cbn; assumption.
  - destruct (intervalMs t <=? now - lastEmit t) eqn:He; cbn in *.
    + apply (IH _ i j ti tj); cbn; try assumption. lia.
    + apply (IH _ i j ti tj); try assumption. lia.
Qed.

(** A length-computable event with [loaded = total] passes the listener
    whatever the throttler answers. *)
Lemma progressListener_terminal t now event :
  lengthComputable event = true ->
  loaded event = total event ->
  (progressListener t now event).1 = Some (progressOf event).
Proof.
  intros Hlc Heq. unfold progressListener. rewrite Hlc.
  destruct (shouldEmit t now) as [emit t'].
  replace (loaded event =? total event) with true by lia.
  rewrite orb_true_r. reflexivity.
Qed.

Lemma progressRun_terminal events :
  forall t now event,
    In (now, event) events ->
    lengthComputable event = true ->
    loaded event = total event ->
    In (progressOf event) (progressRun t events).
Proof.
  induction events as [|[n e] rest IH]; intros t now event Hin Hlc Heq;
    [ destruct Hin | ].
  cbn [progressRun]. destruct Hin as [[= -> ->]|Hin].
  - pose proof (progressListener_terminal t now event Hlc Heq) as Ht.
    destruct (progressListener t now event) as [p t']. cbn in Ht. subst p.
    left. reflexivity.
  - destruct (progressListener t n e) as [[p|] t'];
      [ right | ]; apply (IH t' now event); assumption.
Qed.

(** The listener calls the throttler once for every event with a known
    length, at the time of the event, and the callback receives the
    events that the throttler lets through and the terminal ones. *)
Lemma progressRun_gate events :
  forall t,
    progressRun t events =
      delivered (gated events) (throttlerRun t (map fst (gated events))).
Proof.
  induction events as [|[now event] rest IH]; intros t; [ reflexivity | ].
  cbn [progressRun gated List.filter snd]. unfold progressListener.
  destruct (lengthComputable event) eqn:Hlc.
  - cbn [map fst throttlerRun delivered].
    destruct (shouldEmit t now) as [emit t'].
    cbn [delivered]. fold (gated rest).
    destruct (emit || (loaded event =? total event)); rewrite IH; reflexivity.
  - fold (gated rest). apply IH.
Qed.

(** The request is sent unless the descriptor is a multipart one
    without fields. *)
Lemma xhrSend_sends d f :
  mode d = put \/ is_Some (fields d) -> exists request, xhrSend d f = inr request.
Proof.
  intros Hd. unfold xhrSend. destruct (mode d).
  - eexists. reflexivity.
  - destruct Hd as [Hd|[fs Hfs]]; [ discriminate | ].
    rewrite Hfs. eexists. reflexivity.
Qed.

Lemma XHRTransport_emitted d f o script :
  onProgress o = true ->
  signal o <> Some true ->
  mode d = put \/ is_Some (fields d) ->
  emitted (XHRTransport_upload d f o script) =
    progressRun (newProgressThrottler (progressIntervalMs o)) (progressEvents script).
Proof.
  intros Hcb Hsig Hd. unfold XHRTransport_upload.
  destruct (xhrSend_sends d f Hd) as [request ->].
  destruct (signal o) as [[|]|]; [ destruct Hsig; reflexivity | | ];
    cbn [emitted]; rewrite Hcb; reflexivity.
Qed.

(** C7: a throttler made with interval [I] has that interval, 120 ms
    when none is given; once [shouldEmit] has answered [true] at a time
    [ti], every later call made at a time below [ti + intervalMs]
    answers [false].  An upload by the XHR transport with a progress
    callback, a signal that is not aborted and a descriptor that can be
    sent makes one throttler with the configured interval, asks it once
    per progress event of known length, and hands to the callback the
    events it lets through and those with [loaded = total]: such a
    terminal event reaches the callback whatever the throttler
    answers. *)
Theorem throttler_gate_and_terminal_event :
  (forall i, intervalMs (newProgressThrottler i) = default 120 i) /\
  (forall t times i j ti tj,
     0 <= intervalMs t ->
     (i < j)%nat ->
     times !! i = Some ti ->
     times !! j = Some tj ->
     throttlerRun t times !! i = Some true ->
     tj < ti + intervalMs t ->
     throttlerRun t times !! j = Some false) /\
  (forall d f o script,
     onProgress o = true ->
     signal o <> Some true ->
     mode d = put \/ is_Some (fields d) ->
     emitted (XHRTransport_upload d f o script) =
       delivered (gated (progressEvents script))
         (throttlerRun (newProgressThrottler (progressIntervalMs o))
            (map fst (gated (progressEvents script))))) /\
  (forall d f o script now event,
     onProgress o = true ->
     signal o <> Some true ->
     mode d = put \/ is_Some (fields d) ->
     In (now, event) (progressEvents script) ->
     lengthComputable event = true ->
     loaded event = total event ->
     In {| bytesSent := loaded event; totalBytes := total event;
           percent := round_percent (loaded event) (total event) |}
        (emitted (XHRTransport_upload d f o script))).
Proof.
  split; [ reflexivity | ]. split; [ | split ].
  - intros t times. apply throttlerRun_gap.
  - intros d f o script Hcb Hsig Hd.
    rewrite (XHRTransport_emitted d f o script Hcb Hsig Hd).
    apply progressRun_gate.
  - intros d f o script now event Hcb Hsig Hd Hin Hlc Heq.
    rewrite (XHRTransport_emitted d f o script Hcb Hsig Hd).
    apply (progressRun_terminal _ _ now event Hin Hlc Heq).
Qed.

(** Calls at 1000, 1050, 1119, 1120: the second and third come less
    than 120 ms after the first.  Events at 1000, 1050 and 1060 with a
    configured interval of 100: the second is held back, the third has
    all the bytes and is delivered 10 ms after the second call. *)
Lemma throttler_gate_and_terminal_event_witness :
  throttlerRun (newProgressThrottler None) [1000; 1050; 1119; 1120] !! 2%nat
    = Some false /\
  emitted (XHRTransport_upload putDescriptor testFile
             {| onProgress := true; signal := Some false;
                progressIntervalMs := Some 100 |} burstScript)
    = delivered (gated (progressEvents burstScript))
        (throttlerRun (newProgressThrottler (Some 100))
           (map fst (gated (progressEvents burstScript)))) /\
  In {| bytesSent := 1024; totalBytes := 1024;
        percent := round_percent 1024 1024 |}
     (emitted (XHRTransport_upload putDescriptor testFile
                 {| onProgress := true; signal := Some false;
                    progressIntervalMs := Some 100 |} burstScript)).
Proof.
  split; [ | split ].
  - apply (proj1 (proj2 throttler_gate_and_terminal_event)
             (newProgressThrottler None) [1000; 1050; 1119; 1120] 0%nat 2%nat
             1000 1119);
      [ cbn; lia | lia | reflexivity | reflexivity | reflexivity | cbn; lia ].
  - apply (proj1 (proj2 (proj2 throttler_gate_and_terminal_event))
             putDescriptor testFile
             {| onProgress := true; signal := Some false;
                progressIntervalMs := Some 100 |} burstScript);
      [ reflexivity | discriminate | left; reflexivity ].
  - apply (proj2 (proj2 (proj2 throttler_gate_and_terminal_event))
             putDescriptor testFile
             {| onProgress := true; signal := Some false;
                progressIntervalMs := Some 100 |} burstScript 1060
             {| lengthComputable := true; loaded := 1024; total := 1024 |});
      [ reflexivity | discriminate | left; reflexivity
      | right; right; left; reflexivity | reflexivity | reflexivity ].
Defined.

(** The burst seen by the callback: the first event and the last. *)
Example burst_as_delivered :
  emitted (XHRTransport_upload putDescriptor testFile
             {| onProgress := true; signal := Some false;
                progressIntervalMs := Some 100 |} burstScript)
  = [{| bytesSent := 100; totalBytes := 1024; percent := JInt 10 |};
     {| bytesSent := 1024; totalBytes := 1024; percent := JInt 100 |}].
Proof. reflexivity. Qed.

Example throttler_answers :
  throttlerRun (newProgressThrottler None) [1000; 1050; 1119; 1120; 1239; 1240]
  = [true; false; false; true; false; true].
Proof. reflexivity. Qed.

(** ** The multipart body *)






Example custom_file_field_name :
  req_body <$> sent (FetchTransport
    {| mode := post; uploadUrl := Some "https://test-bucket.s3.amazonaws.com";
       key := Some "k"; headers := None; fields := Some [("Policy", "p")];
       postFileFieldName := Some "custom_file_field"; expiresAt := None |}
    testFile progressOptions multipartScript)
  = Some (BodyForm [("Policy", FText "p"); ("custom_file_field", FFile testFile)]).
Proof. reflexivity. Qed.

(** ** The fetch transport and progress *)

(** The progress values handed to the caller's callback during one
    orchestrated upload. *)
Lemma FetchTransport_emits_nothing d f o net :
  emitted (FetchTransport d f o net) = [].
Proof.
  unfold FetchTransport, FetchTransport_upload.
  destruct (fetchRequest d f); reflexivity.
Qed.

Section QuietTransport.

Variable config : UploaderConfig.
Variable transport : Transport.
Variable file : File.
Variable options : UploadOptions.
Variable world : World.

Hypothesis quiet : forall d f o net, emitted (transport d f o net) = [].

Lemma tryBlock_quiet st :
  progressCalls (tryBlock config transport file options world st).1.1 = [].
Proof.
  unfold tryBlock, callTransport.
  destruct (aborted (o_signal options) (clock st)); [ reflexivity | ].
  destruct (needsInit config st).
  - destruct (initializePresign config file _); cbn; [ reflexivity | ].
    rewrite quiet. reflexivity.
  - destruct (presignConfig st); cbn; [ | reflexivity ].
    rewrite quiet. reflexivity.
Qed.

Lemma attempts_quiet n :
  forall attempt st,
    progressCalls (attempts config transport file options world n attempt st).1 = [].
Proof.
  induction n as [|n IH]; intros attempt st; [ reflexivity | ].
  rewrite attempts_S. pose proof (tryBlock_quiet st) as Htry.
  destruct (tryBlock config transport file options world st) as [[evs st1] res].
  cbn [fst] in Htry. destruct res as [result|error]; [ exact Htry | ].
  destruct (p_retries (mergeRetry (c_retry config)) + 1 <=? attempt);
    [ exact Htry | ].
  destruct (negb (isRetryableError (caught st1 error))); [ exact Htry | ].
  destruct (aborted (o_signal options) (clock st1)); [ exact Htry | ].
  specialize (IH (attempt + 1) (afterCatch st1 (caught st1 error))).
  destruct (attempts config transport file options world n (attempt + 1) _)
    as [evs' res'].
  cbn [fst] in *. unfold progressCalls in *.
  rewrite flat_map_app, Htry. cbn. exact IH.
Qed.

End QuietTransport.

(** C10: the fetch transport never hands a value to the progress
    callback, whatever the descriptor, the options and the outcome; an
    upload orchestrated over the fetch transport, with any number of
    attempts and whether it succeeds or fails, reports no progress at
    all. *)
Theorem fetch_reports_no_progress :
  (forall d f o net, emitted (FetchTransport d f o net) = []) /\
  (forall config file opts cancelled world,
     c_transport config = Some fetch ->
     progressCalls (UploaderImpl_upload config file opts cancelled world).1 = []).
Proof.
  split; [ exact FetchTransport_emits_nothing | ].
  intros config file opts cancelled world Hty.
  unfold UploaderImpl_upload, uploadWithRetry. rewrite Hty.
  apply attempts_quiet. exact FetchTransport_emits_nothing.
Qed.

(** A successful upload over fetch, with a progress callback. *)
Lemma fetch_reports_no_progress_witness :
  let config :=
    {| c_init := initWith (fun _ => inr putDescriptor); c_retry := None;
       c_transport := Some fetch; c_progressIntervalMs := None |} in
  let opts := {| o_onProgress := true; o_signal := None |} in
  (exists result,
     (UploaderImpl_upload config testFile opts (fun _ => false) alwaysOk).2
     = inl result) /\
  progressCalls (UploaderImpl_upload config testFile opts (fun _ => false) alwaysOk).1
  = [].
Proof.
  intros config opts. split; [ eexists; reflexivity | ].
  apply (proj2 fetch_reports_no_progress config testFile opts (fun _ => false) alwaysOk).
  reflexivity.
Defined.

(** ** The concurrency controller *)

Lemma remove_task_absent t l : t ∉ l -> remove_task t l = l.
Proof.
  unfold remove_task. induction l as [|y l IH]; intros Hx; [ reflexivity | ].
  apply not_elem_of_cons in Hx as [Hy Hx].
  rewrite filter_cons_True by congruence. f_equal. apply IH, Hx.
Qed.

Lemma remove_task_length t l :
  NoDup l -> t ∈ l -> S (length (remove_task t l)) = length l.
Proof.
  induction l as [|x l IH]; intros Hnd Hin.
  - inversion Hin.
  - apply NoDup_cons in Hnd as [Hx Hnd].
    destruct (decide (x = t)) as [->|Hne].
    + unfold remove_task.
      rewrite filter_cons_False by (intros H; apply H; reflexivity).
      fold (remove_task t l). rewrite (remove_task_absent t l Hx). reflexivity.
    + unfold remove_task. rewrite filter_cons_True by exact Hne.
      fold (remove_task t l). cbn. f_equal.
      apply IH; [ exact Hnd | ].
      apply elem_of_cons in Hin as [->|Hin]; [ congruence | exact Hin ].
Qed.

Lemma batchInv_start k :
  0 <= k ->
  batchInv k [] {| controller := newConcurrencyController k;
                   inFlight := []; started := [] |}.
Proof.
  intros Hk. constructor; cbn; auto. constructor.
Qed.

(** [execute] keeps the invariant and extends the submitted tasks. *)
Lemma batchInv_execute k submitted b task :
  batchInv k submitted b ->
  NoDup (submitted ++ [task]) ->
  batchInv k (submitted ++ [task]) (startTasks b (execute (controller b) task)).
Proof.
  intros [Hrun Hmax Hord Hbound Hbusy Hnd Hsub] Hfresh.
  apply NoDup_app in Hfresh as (_ & Hnew & _).
  assert (Hnotin : task ∉ inFlight b).
  { intros Hin. apply (Hnew task); [ | left ].
    rewrite <- Hord. apply elem_of_app. left. apply Hsub, Hin. }
  unfold execute, executeTask, startTasks.
  destruct (running (controller b) <? maxConcurrency (controller b)) eqn:Hlt; cbn.
  - assert (Hq : queue (controller b) = []) by (destruct Hbusy; [ assumption | lia ]).
    constructor; cbn.
    + rewrite length_app. cbn. lia.
    + exact Hmax.
    + rewrite Hq, app_nil_r. rewrite Hq, app_nil_r in Hord. congruence.
    + lia.
    + left. exact Hq.
    + apply NoDup_app. repeat split; [ exact Hnd | | apply NoDup_singleton ].
      intros x Hx Hx'. apply list_elem_of_singleton in Hx'. congruence.
    + intros t Ht. apply elem_of_app in Ht as [Ht|Ht]; apply elem_of_app;
        [ left; apply Hsub, Ht | right; exact Ht ].
  - constructor; cbn.
    + rewrite app_nil_r. exact Hrun.
    + exact Hmax.
    + rewrite app_nil_r, app_assoc. congruence.
    + exact Hbound.
    + right. lia.
    + rewrite app_nil_r. exact Hnd.
    + rewrite !app_nil_r. exact Hsub.
Qed.

Lemma batchInv_submit k tasks :
  forall submitted b,
    batchInv k submitted b ->
    NoDup (submitted ++ tasks) ->
    batchInv k (submitted ++ tasks) (submit b tasks).
Proof.
  unfold submit.
  induction tasks as [|task rest IH]; intros submitted b Hinv Hnd; cbn [fold_left].
  - rewrite app_nil_r. exact Hinv.
  - replace (submitted ++ task :: rest) with ((submitted ++ [task]) ++ rest) in *
      by (rewrite <- app_assoc; reflexivity).
    apply IH; [ | exact Hnd ].
    apply batchInv_execute; [ exact Hinv | ].
    apply NoDup_app in Hnd as (Hnd & _ & _). exact Hnd.
Qed.

(** A settling task keeps the invariant; if a task is waiting, exactly
    the head of the queue is started. *)
Lemma batchInv_settle k submitted b t :
  NoDup submitted ->
  batchInv k submitted b ->
  t ∈ inFlight b ->
  batchInv k submitted (settle b t) /\
  started (settle b t) = started b ++ take 1 (queue (controller b)).
Proof.
  intros Hall [Hrun Hmax Hord Hbound Hbusy Hnd Hsub] Hin.
  pose proof (remove_task_length t (inFlight b) Hnd Hin) as Hlen.
  unfold settle, finally, processQueue, executeTask, startTasks, remove_task in *.
  cbn [controller inFlight started running queue maxConcurrency].
  destruct (queue (controller b)) as [|next rest] eqn:Hq.
  - replace (0 <? Z.of_nat (length (@nil nat))) with false by reflexivity.
    cbn. split; [ | reflexivity ]. constructor; cbn.
    + rewrite app_nil_r. lia.
    + exact Hmax.
    + rewrite app_nil_r. exact Hord.
    + lia.
    + left. reflexivity.
    + rewrite app_nil_r. apply NoDup_filter, Hnd.
    + rewrite !app_nil_r. intros x Hx.
      apply list_elem_of_filter in Hx as [_ Hx]. apply Hsub, Hx.
  - replace (0 <? Z.of_nat (length (next :: rest))) with true
      by (symmetry; apply Z.ltb_lt; rewrite length_cons; lia).
    replace (running (controller b) - 1 <? maxConcurrency (controller b))
      with true by lia.
    cbn. split; [ | reflexivity ].
    assert (Hnext : next ∉ started b).
    { rewrite <- Hord in Hall. apply NoDup_app in Hall as (_ & Hdis & _).
      intros Hs. apply (Hdis next Hs). left. }
    constructor; cbn.
    + rewrite length_app. cbn. lia.
    + exact Hmax.
    + rewrite <- app_assoc. exact Hord.
    + lia.
    + right. destruct Hbusy as [Hb|Hb]; [ discriminate | lia ].
    + apply NoDup_app. repeat split;
        [ apply NoDup_filter, Hnd | | apply NoDup_singleton ].
      intros x Hx Hx'. apply list_elem_of_singleton in Hx'. subst x.
      apply list_elem_of_filter in Hx as [_ Hx]. apply Hnext, Hsub, Hx.
    + intros x Hx. apply elem_of_app in Hx as [Hx|Hx]; apply elem_of_app.
      * left. apply list_elem_of_filter in Hx as [_ Hx]. apply Hsub, Hx.
      * right. exact Hx.
Qed.

Lemma reachable_inv files k b :
  0 <= k ->
  reachable files (Some k) b ->
  batchInv k (seq 0 files) b.
Proof.
  intros Hk Hreach. induction Hreach as [|b t Hreach IH Hin].
  - unfold uploadManyStart. cbn [default].
    apply (batchInv_submit k (seq 0 files) []);
      [ apply batchInv_start, Hk | apply NoDup_seq ].
  - eapply batchInv_settle; [ apply NoDup_seq | exact IH | exact Hin ].
Qed.

(** After the synchronous [map] the first [k] files run and the others
    wait, in input order. *)
Lemma uploadManyStart_split files k :
  0 <= k ->
  started (uploadManyStart files (Some k)) = seq 0 (Nat.min files (Z.to_nat k)) /\
  queue (controller (uploadManyStart files (Some k)))
    = seq (Nat.min files (Z.to_nat k)) (files - Z.to_nat k).
Proof.
  intros Hk.
  pose proof (reachable_inv files k _ Hk (reach_start files (Some k))) as Hinv.
  destruct Hinv as [Hrun Hmax Hord Hbound Hbusy Hnd Hsub].
  set (b := uploadManyStart files (Some k)) in *.
  assert (Hstart : inFlight b = started b).
  { unfold b, uploadManyStart, submit. cbn [default].
    generalize (seq 0 files).
    assert (Hgen : forall l b0, inFlight b0 = started b0 ->
              inFlight (fold_left (fun b task =>
                 startTasks b (execute (controller b) task)) l b0)
              = started (fold_left (fun b task =>
                 startTasks b (execute (controller b) task)) l b0)).
    { induction l as [|x l IH]; intros b0 H0; [ exact H0 | ].
      cbn [fold_left]. apply IH. unfold startTasks. cbn. rewrite H0. reflexivity. }
    intros l. apply Hgen. reflexivity. }
  rewrite Hstart in Hrun.
  assert (Hlen : (length (started b) + length (queue (controller b)) = files)%nat).
  { rewrite <- length_app, Hord, length_seq. reflexivity. }
  assert (Hs : length (started b) = Nat.min files (Z.to_nat k)).
  { destruct Hbusy as [Hb|Hb]; [ rewrite Hb in Hlen; cbn in Hlen | ]; lia. }
  assert (Hsplit : seq 0 files =
            seq 0 (Nat.min files (Z.to_nat k))
            ++ seq (Nat.min files (Z.to_nat k)) (files - Z.to_nat k)).
  { replace files with
      (Nat.min files (Z.to_nat k) + (files - Z.to_nat k))%nat at 1 by lia.
    apply seq_app. }
  rewrite Hsplit in Hord.
  apply app_inj_1 in Hord; [ exact Hord | ].
  rewrite length_seq. exact Hs.
Qed.

Example default_concurrency files :
  uploadManyStart files None = uploadManyStart files (Some 3).
Proof. reflexivity. Qed.

(** C9: in every state that [uploadMany] reaches with bound [k], the
    controller's [running] is the number of tasks in flight and is at
    most [k]; the tasks started so far followed by the queue are the
    files in input order, so tasks start in input order; no task waits
    while a slot is free; after the synchronous submission the first
    [k] files are in flight and the others are queued in input order;
    and when a task in flight settles, the task started in its place is
    the head of the queue. *)
Theorem concurrency_bound_and_order files k b :
  0 <= k ->
  reachable files (Some k) b ->
  running (controller b) = Z.of_nat (length (inFlight b)) /\
  Z.of_nat (length (inFlight b)) <= k /\
  started b ++ queue (controller b) = seq 0 files /\
  (queue (controller b) = [] \/ Z.of_nat (length (inFlight b)) = k) /\
  started (uploadManyStart files (Some k)) = seq 0 (Nat.min files (Z.to_nat k)) /\
  queue (controller (uploadManyStart files (Some k)))
    = seq (Nat.min files (Z.to_nat k)) (files - Z.to_nat k) /\
  (forall t, t ∈ inFlight b ->
     started (settle b t) = started b ++ take 1 (queue (controller b))).
Proof.
  intros Hk Hreach.
  pose proof (reachable_inv files k b Hk Hreach) as Hinv.
  destruct (uploadManyStart_split files k Hk) as [Hs Hq].
  destruct Hinv as [Hrun Hmax Hord Hbound Hbusy Hnd Hsub].
  repeat split; try assumption; try lia.
  - destruct Hbusy as [Hb|Hb]; [ left; exact Hb | right; lia ].
  - intros t Ht.
    eapply (batchInv_settle k (seq 0 files) b t (NoDup_seq 0 files)); [ | exact Ht ].
    constructor; assumption.
Qed.

(** Five files under a bound of two, after file 0 has settled: files 1
    and 2 are in flight, 3 and 4 wait. *)
Lemma concurrency_bound_and_order_witness :
  let b := settle (uploadManyStart 5 (Some 2)) 0%nat in
  0 <= 2 /\
  reachable 5 (Some 2) b /\
  inFlight b = [1; 2]%nat /\
  running (controller b) = Z.of_nat (length (inFlight b)) /\
  Z.of_nat (length (inFlight b)) <= 2 /\
  started b ++ queue (controller b) = seq 0 5.
Proof.
  intro b.
  assert (Hreach : reachable 5 (Some 2) b).
  { apply reach_settle; [ apply reach_start | ]. left. }
  split; [ lia | ]. split; [ exact Hreach | ]. split; [ reflexivity | ].
  destruct (concurrency_bound_and_order 5 2 b ltac:(lia) Hreach)
    as (H1 & H2 & H3 & _).
  split; [ exact H1 | ]. split; [ exact H2 | exact H3 ].
Defined.

Example schedule_of_five :
  let b0 := uploadManyStart 5 (Some 2) in
  let b1 := settle b0 1%nat in
  let b2 := settle b1 0%nat in
  (started b0, queue (controller b0)) = ([0; 1]%nat, [2; 3; 4]%nat) /\
  (inFlight b1, queue (controller b1)) = ([0; 2]%nat, [3; 4]%nat) /\
  (inFlight b2, queue (controller b2)) = ([2; 3]%nat, [4]%nat).
Proof. repeat split. Qed.

(** * Further properties of the code *)

(** ** errors.ts *)

(** X1: an error made from an HTTP response keeps the phase it is given;
    it is retryable unless the status is a 4xx other than 403, and it
    requires reinit exactly when the status is 403. *)
Theorem response_error_retry_table p st text body :
  phase (createErrorFromResponse p st text body) = p /\
  isRetryableError (createErrorFromResponse p st text body)
    = negb ((400 <=? st) && (st <? 500) && negb (st =? 403)) /\
  requiresReinit (createErrorFromResponse p st text body) = (st =? 403).
Proof.
  unfold createErrorFromResponse.
  destruct ((400 <=? st) && (st <? 500)) eqn:E4.
  - destruct (st =? 403) eqn:E3; cbn; repeat split; reflexivity.
  - destruct (500 <=? st) eqn:E5; cbn.
    + repeat split; [ | symmetry; lia ].
      unfold isRetryableError. cbn.
      replace (st =? 0) with false by lia. rewrite E5. reflexivity.
    + repeat split. symmetry. lia.
Qed.

(** X2: a caught value that is not an UploadError is normalised to an
    error of the given phase, without status, of kind ABORTED, TIMEOUT
    or NETWORK; it is retryable unless it is an [Error] named
    AbortError, and it never requires reinit. *)
Theorem foreign_error_normalised t p dflt :
  (forall e, t <> TUploadError e) ->
  let e := normalizeError t p dflt in
  phase e = p /\ status e = None /\
  (code e = ABORTED \/ code e = TIMEOUT \/ code e = NETWORK) /\
  isRetryableError e =
    match t with
    | TError name _ => negb (String.eqb name "AbortError")
    | _ => true
    end /\
  requiresReinit e = false.
Proof.
  intros Hne. destruct t as [e0|name msg|v]; cbn zeta.
  - destruct (Hne e0). reflexivity.
  - unfold normalizeError.
    destruct (String.eqb name "AbortError"); [ cbn; auto 10 | ].
    destruct (String.eqb name "TimeoutError"); cbn; auto 10.
  - cbn. auto 10.
Qed.

Lemma foreign_error_normalised_witness :
  let e := normalizeError (TError "TypeError" "Failed to fetch") upload unexpected in
  phase e = upload /\ status e = None /\
  (code e = ABORTED \/ code e = TIMEOUT \/ code e = NETWORK) /\
  isRetryableError e = true /\
  requiresReinit e = false.
Proof.
  apply (foreign_error_normalised (TError "TypeError" "Failed to fetch") upload
           unexpected).
  intros e. discriminate.
Defined.

(** X3: every error that requires reinit is retryable, whatever its
    other fields. *)
Theorem reinit_implies_retryable e :
  requiresReinit e = true -> isRetryableError e = true.
Proof.
  intros H. apply requiresReinit_iff in H as [Hc Hs].
  unfold isRetryableError. rewrite Hc, Hs. reflexivity.
Qed.

Lemma reinit_implies_retryable_witness :
  requiresReinit (createExpiredError upload None) = true /\
  isRetryableError (createExpiredError upload None) = true.
Proof.
  split; [ reflexivity | ].
  apply (reinit_implies_retryable (createExpiredError upload None)). reflexivity.
Defined.

(** ** createUploader.ts: the retry loop *)

Lemma countEv_app P l1 l2 :
  countEv P (l1 ++ l2) = (countEv P l1 + countEv P l2)%nat.
Proof. induction l1 as [|ev l1 IH]; cbn; [ reflexivity | rewrite IH; lia ]. Qed.

Section LoopMore.

Variable config : UploaderConfig.
Variable transport : Transport.
Variable file : File.
Variable options : UploadOptions.
Variable world : World.

#[local] Abbreviation policy := (mergeRetry (c_retry config)).
#[local] Abbreviation run_try := (tryBlock config transport file options world).
#[local] Abbreviation run_attempts := (attempts config transport file options world).

(** The four shapes of an iteration: nothing done, a failed Initializer
    call, an Initializer call followed by the Transport, the Transport
    on the cached descriptor. *)
Lemma tryBlock_cases st :
  let '(evs, st1, res) := run_try st in
  (evs = [] /\ st1 = st) \/
  (exists e, evs = [EvInit (inl e)] /\ presignConfig st1 = presignConfig st /\
             needsInit config st = true /\ res = inr (TUploadError e)) \/
  (exists d run, evs = [EvInit (inr d); EvTransport d run] /\
                 needsInit config st = true /\
                 presignConfig st1 = Some d /\ res = outcome run) \/
  (exists d run, evs = [EvTransport d run] /\ presignConfig st = Some d /\
                 needsInit config st = false /\
                 presignConfig st1 = Some d /\ res = outcome run).
Proof.
  unfold tryBlock, callTransport.
  destruct (aborted (o_signal options) (clock st)); [ left; auto | ].
  destruct (needsInit config st) eqn:Hneed.
  - destruct (initializePresign config file _) as [e|d].
    + right; left. exists e. auto.
    + right; right; left. eexists _, _. auto.
  - destruct (presignConfig st) as [d|] eqn:Hd.
    + right; right; right. eexists _, _. auto.
    + left. auto.
Qed.

(** X4: an attempt that fails with a BAD_REQUEST or an ABORTED error is
    the last one, whatever the retry budget: the call fails with that
    error and nothing follows the events of the attempt. *)
Theorem non_retryable_ends_the_loop n attempt st evs st1 error :
  run_try st = (evs, st1, inr error) ->
  code (caught st1 error) = BAD_REQUEST \/ code (caught st1 error) = ABORTED ->
  run_attempts (S n) attempt st = (evs, inr (TUploadError (caught st1 error))).
Proof.
  intros Htry Hcode. rewrite attempts_S, Htry.
  assert (Hno : isRetryableError (caught st1 error) = false).
  { unfold isRetryableError. destruct Hcode as [-> | ->]; reflexivity. }
  rewrite Hno. cbn [negb].
  destruct (p_retries policy + 1 <=? attempt); reflexivity.
Qed.

(** The number of events of each kind in one iteration. *)
Lemma tryBlock_counts st :
  (countEv isTransport (run_try st).1.1 <= 1)%nat /\
  (countEv isInit (run_try st).1.1 <= 1)%nat /\
  countEv isSleep (run_try st).1.1 = 0%nat.
Proof.
  pose proof (tryBlock_cases st) as H.
  destruct (run_try st) as [[evs st1] res]. cbn [fst].
  destruct H as [[-> _]|[(e & -> & _)|[(d & run & -> & _)|(d & run & -> & _)]]];
    cbn; lia.
Qed.

Lemma attempts_counts n :
  forall attempt st,
    (countEv isTransport (run_attempts n attempt st).1 <= n)%nat /\
    (countEv isInit (run_attempts n attempt st).1 <= n)%nat /\
    (n = 0%nat \/ attempt + Z.of_nat n = p_retries policy + 2 ->
     (countEv isSleep (run_attempts n attempt st).1 <= Nat.pred n)%nat).
Proof.
  induction n as [|n IH]; intros attempt st; [ cbn; lia | ].
  rewrite attempts_S. pose proof (tryBlock_counts st) as (Ht & Hi & Hs).
  destruct (run_try st) as [[evs st1] res]. cbn [fst] in *.
  destruct res as [result|error]; [ cbn [fst]; lia | ].
  destruct (p_retries policy + 1 <=? attempt) eqn:Hlast; [ cbn [fst]; lia | ].
  destruct (negb (isRetryableError (caught st1 error))); [ cbn [fst]; lia | ].
  destruct (aborted (o_signal options) (clock st1)); [ cbn [fst]; lia | ].
  specialize (IH (attempt + 1) (afterCatch st1 (caught st1 error))).
  destruct (run_attempts n (attempt + 1) _) as [evs' res'].
  cbn [fst] in *. rewrite !countEv_app. cbn [countEv isTransport isInit isSleep].
  destruct IH as (IHt & IHi & IHs). repeat split; lia.
Qed.

(** X5: one call of [uploadWithRetry] makes at most [retries + 1]
    Transport calls and at most [retries + 1] Initializer calls, and
    sleeps at most [retries] times, whatever the network answers. *)
Theorem attempt_budget :
  let evs := (uploadWithRetry config transport file options world).1 in
  (countEv isTransport evs <= Z.to_nat (p_retries policy + 1))%nat /\
  (countEv isInit evs <= Z.to_nat (p_retries policy + 1))%nat /\
  (countEv isSleep evs <= Z.to_nat (p_retries policy))%nat.
Proof.
  cbn zeta. unfold uploadWithRetry.
  pose proof (attempts_counts (Z.to_nat (p_retries policy + 1)) 1 initialState)
    as (Ht & Hi & Hs).
  repeat split; [ exact Ht | exact Hi | ].
  assert (countEv isSleep
            (run_attempts (Z.to_nat (p_retries policy + 1)) 1 initialState).1
          <= Nat.pred (Z.to_nat (p_retries policy + 1)))%nat by (apply Hs; lia).
  lia.
Qed.

(** X6: when [retries] is left out or set to a number that is not
    negative, the first Initializer call and the first Transport call
    succeed and the signal is not aborted at the start, the call
    returns the Transport's result after exactly one Initializer call
    and one Transport call, without sleeping.  ([retries] set to
    [undefined] reads as a budget of -1: see X7.) *)
Theorem first_attempt_success d result :
  0 <= p_retries policy ->
  aborted (o_signal options) 0 = false ->
  initializePresign config file (w_init world 0) = inr d ->
  outcome (transport d file
             {| onProgress := o_onProgress options;
                signal := (fun s : Signal => s 1%nat) <$> o_signal options;
                progressIntervalMs := c_progressIntervalMs config |}
             (w_net world 0)) = inl result ->
  exists run,
    uploadWithRetry config transport file options world
    = ([EvInit (inr d); EvTransport d run], inl result).
Proof.
  intros Hr Hsig Hinit Hout. unfold uploadWithRetry.
  destruct (Z.to_nat (p_retries policy + 1)) as [|n] eqn:Hn; [ lia | ].
  rewrite attempts_S. unfold tryBlock, callTransport, needsInit. cbn.
  rewrite Hsig, Hinit. cbn. rewrite Hout. eexists. reflexivity.
Qed.

(** The loop never leaves by its end when the counter and the number of
    iterations left agree. *)
Lemma attempts_throw_UploadError n :
  forall attempt st t,
    (1 <= n)%nat ->
    attempt + Z.of_nat n = p_retries policy + 2 ->
    (run_attempts n attempt st).2 = inr t ->
    exists e, t = TUploadError e.
Proof.
  induction n as [|n IH]; intros attempt st t Hn Hlink; [ lia | ].
  rewrite attempts_S. destruct (run_try st) as [[evs st1] res].
  destruct res as [result|error]; [ discriminate | ].
  destruct (p_retries policy + 1 <=? attempt) eqn:Hlast;
    [ intros [= <-]; eauto | ].
  destruct (negb (isRetryableError (caught st1 error)));
    [ intros [= <-]; eauto | ].
  destruct (aborted (o_signal options) (clock st1));
    [ intros [= <-]; eauto | ].
  specialize (IH (attempt + 1) (afterCatch st1 (caught st1 error)) t).
  destruct (run_attempts n (attempt + 1) _) as [evs' res'].
  cbn [snd] in *. apply IH; lia.
Qed.

(** X7: with a retry budget that is not negative, whatever a call of
    [uploadWithRetry] throws is an UploadError; with a negative budget
    no attempt is made and the plain [Error] after the loop is thrown,
    and so it is when the configuration sets [retries] to [undefined],
    which overrides the default of 0 in the merged policy. *)
Theorem thrown_value_of_uploadWithRetry :
  (0 <= p_retries policy ->
   forall t, (uploadWithRetry config transport file options world).2 = inr t ->
     exists e, t = TUploadError e) /\
  (p_retries policy < -1 \/ p_retries policy = -1 ->
   uploadWithRetry config transport file options world
   = ([], inr (TError "Error" "Upload failed for unknown reason"))) /\
  (forall c, c_retry config = Some c -> retries c = Undefined ->
   uploadWithRetry config transport file options world
   = ([], inr (TError "Error" "Upload failed for unknown reason"))).
Proof.
  split; [ | split ].
  - intros Hr t. unfold uploadWithRetry.
    apply attempts_throw_UploadError; lia.
  - intros Hr. unfold uploadWithRetry.
    replace (Z.to_nat (p_retries policy + 1)) with 0%nat by lia. reflexivity.
  - intros c Hc Hundef. unfold uploadWithRetry, mergeRetry.
    rewrite Hc. cbn [p_retries]. rewrite Hundef. reflexivity.
Qed.

Lemma needsInit_cached st d :
  presignConfig st = Some d ->
  p_reinitOnAuthError policy = false ->
  needsInit config st = false.
Proof.
  intros Hd Hflag. unfold needsInit. rewrite Hd, Hflag.
  destruct (lastError st); [ apply andb_false_r | reflexivity ].
Qed.

Lemma attempts_init_once n :
  forall attempt st,
    p_reinitOnAuthError policy = false ->
    (countEv isInitOk (run_attempts n attempt st).1
     <= match presignConfig st with Some _ => 0 | None => 1 end)%nat.
Proof.
  induction n as [|n IH]; intros attempt st Hflag; [ cbn; lia | ].
  rewrite attempts_S. pose proof (tryBlock_cases st) as Hc.
  destruct (run_try st) as [[evs st1] res].
  assert (Hevs : (countEv isInitOk evs
                  <= match presignConfig st with Some _ => 0 | None => 1 end)%nat
                 /\ (countEv isInitOk evs = 1%nat ->
                     exists d, presignConfig st1 = Some d)
                 /\ (forall d, presignConfig st = Some d ->
                     presignConfig st1 = Some d)).
  { destruct Hc as [[-> ->]|[(e & -> & Hp & Hn & _)|[(d & run & -> & Hn & Hp & _)
                   |(d & run & -> & Hd & _ & Hp & _)]]]; cbn.
    - repeat split; [ destruct (presignConfig st); lia | lia | auto ].
    - repeat split; [ destruct (presignConfig st); lia | lia | ].
      intros d Hd. congruence.
    - destruct (presignConfig st) as [d0|] eqn:Hd0.
      + rewrite (needsInit_cached st d0 Hd0 Hflag) in Hn. discriminate.
      + repeat split; [ lia | eauto | discriminate ].
    - rewrite Hd. repeat split; [ lia | lia | ]. intros d0 [= <-]. exact Hp. }
  destruct Hevs as (Hle & Hone & Hkeep).
  destruct res as [result|error]; [ exact Hle | ].
  destruct (p_retries policy + 1 <=? attempt); [ exact Hle | ].
  destruct (negb (isRetryableError (caught st1 error))); [ exact Hle | ].
  destruct (aborted (o_signal options) (clock st1)); [ exact Hle | ].
  specialize (IH (attempt + 1) (afterCatch st1 (caught st1 error)) Hflag).
  destruct (run_attempts n (attempt + 1) _) as [evs' res'].
  cbn [fst afterCatch presignConfig] in *. rewrite countEv_app. cbn [countEv isInitOk].
  destruct (presignConfig st) as [d|] eqn:Hd.
  - rewrite (Hkeep d eq_refl) in IH. lia.
  - destruct (presignConfig st1) as [d1|] eqn:Hd1; [ lia | ].
    assert (countEv isInitOk evs <> 1)%nat.
    { intros H1. destruct (Hone H1) as [d Hd']. discriminate. }
    lia.
Qed.

(** X8: when [reinitOnAuthError] is off, the Initializer returns a
    descriptor at most once in a call of [uploadWithRetry]: once a
    descriptor is cached it is never fetched again. *)
Theorem no_reinit_single_descriptor :
  p_reinitOnAuthError policy = false ->
  (countEv isInitOk (uploadWithRetry config transport file options world).1 <= 1)%nat.
Proof.
  intros Hflag. unfold uploadWithRetry.
  apply (attempts_init_once _ 1 initialState Hflag).
Qed.

Lemma fedByInitializer_app cur l1 :
  forall l2,
    fedByInitializer cur l1 ->
    fedByInitializer (descriptorAfter cur l1) l2 ->
    fedByInitializer cur (l1 ++ l2).
Proof.
  revert cur. induction l1 as [|ev l1 IH]; intros cur l2 H1 H2; [ exact H2 | ].
  destruct ev as [[e|d]|d run|ms]; cbn in *.
  - apply IH; assumption.
  - apply IH; assumption.
  - destruct H1 as [Hc H1]. split; [ exact Hc | apply IH; assumption ].
  - apply IH; assumption.
Qed.

Lemma attempts_fed n :
  forall attempt st,
    fedByInitializer (presignConfig st) (run_attempts n attempt st).1.
Proof.
  induction n as [|n IH]; intros attempt st; [ exact I | ].
  rewrite attempts_S. pose proof (tryBlock_cases st) as Hc.
  destruct (run_try st) as [[evs st1] res].
  assert (Hevs : fedByInitializer (presignConfig st) evs /\
                 descriptorAfter (presignConfig st) evs = presignConfig st1).
  { destruct Hc as [[-> ->]|[(e & -> & Hp & _)|[(d & run & -> & _ & Hp & _)
                   |(d & run & -> & Hd & _ & Hp & _)]]]; cbn; auto.
    rewrite Hd, Hp. auto. }
  destruct Hevs as [Hfed Hafter].
  destruct res as [result|error]; [ exact Hfed | ].
  destruct (p_retries policy + 1 <=? attempt); [ exact Hfed | ].
  destruct (negb (isRetryableError (caught st1 error))); [ exact Hfed | ].
  destruct (aborted (o_signal options) (clock st1)); [ exact Hfed | ].
  specialize (IH (attempt + 1) (afterCatch st1 (caught st1 error))).
  destruct (run_attempts n (attempt + 1) _) as [evs' res'].
  cbn [fst afterCatch presignConfig] in *.
  apply fedByInitializer_app; [ exact Hfed | ].
  rewrite Hafter. exact IH.
Qed.

(** X9: every Transport call of [uploadWithRetry] is made on the
    descriptor that the most recent successful Initializer call
    returned; in particular no Transport call precedes the first
    successful Initializer call. *)
Theorem transport_uses_latest_descriptor :
  fedByInitializer None (uploadWithRetry config transport file options world).1.
Proof. unfold uploadWithRetry. apply (attempts_fed _ 1 initialState). Qed.

End LoopMore.

(** The store answers 400: one attempt, although three retries are allowed. *)
Lemma non_retryable_ends_the_loop_witness :
  exists run,
    attempts (configOf putDescriptor 3 true) XHRTransport testFile noOptions
      {| w_init := fun _ => FetchResponds (jsonResponse 200 "OK" JNull);
         w_net := fun _ => loadWith 400 "Bad Request" |}
      4 1 initialState
    = ([EvInit (inr putDescriptor); EvTransport putDescriptor run],
       inr (TUploadError (createErrorFromResponse upload 400 "Bad Request" JUndefined))).
Proof.
  eexists.
  etransitivity.
  - eapply (non_retryable_ends_the_loop (configOf putDescriptor 3 true) XHRTransport
              testFile noOptions
              {| w_init := fun _ => FetchResponds (jsonResponse 200 "OK" JNull);
                 w_net := fun _ => loadWith 400 "Bad Request" |}
              3 1 initialState).
    + reflexivity.
    + left. reflexivity.
  - reflexivity.
Defined.

Lemma first_attempt_success_witness :
  exists run,
    uploadWithRetry (configOf putDescriptor 3 true) XHRTransport testFile
      noOptions alwaysOk
    = ([EvInit (inr putDescriptor); EvTransport putDescriptor run],
       inl {| r_key := Some "test-key"; r_location := None; r_etag := None;
              r_mode := put |}).
Proof.
  apply (first_attempt_success (configOf putDescriptor 3 true) XHRTransport
           testFile noOptions alwaysOk putDescriptor);
    [ cbn; lia | reflexivity | reflexivity | reflexivity ].
Defined.

Lemma thrown_value_of_uploadWithRetry_witness :
  (exists e,
     TUploadError abortedCheckError = TUploadError e) /\
  uploadWithRetry (configOf putDescriptor (-1) true) XHRTransport testFile
    noOptions alwaysOk
  = ([], inr (TError "Error" "Upload failed for unknown reason")) /\
  uploadWithRetry
    {| c_init := initWith (fun _ => inr putDescriptor);
       c_retry := Some {| retries := Undefined; backoff := Absent;
                          minDelayMs := Absent; maxDelayMs := Absent;
                          reinitOnAuthError := Absent |};
       c_transport := None; c_progressIntervalMs := None |}
    XHRTransport testFile noOptions alwaysOk
  = ([], inr (TError "Error" "Upload failed for unknown reason")).
Proof.
  split; [ | split ].
  - apply (proj1 (thrown_value_of_uploadWithRetry (configOf putDescriptor 3 true)
                    XHRTransport testFile abortedOptions alwaysOk));
      [ cbn; lia | vm_compute; reflexivity ].
  - apply (proj1 (proj2 (thrown_value_of_uploadWithRetry
                           (configOf putDescriptor (-1) true)
                           XHRTransport testFile noOptions alwaysOk))).
    right. reflexivity.
  - apply (proj2 (proj2 (thrown_value_of_uploadWithRetry
                           {| c_init := initWith (fun _ => inr putDescriptor);
                              c_retry := Some {| retries := Undefined;
                                                 backoff := Absent;
                                                 minDelayMs := Absent;
                                                 maxDelayMs := Absent;
                                                 reinitOnAuthError := Absent |};
                              c_transport := None;
                              c_progressIntervalMs := None |}
                           XHRTransport testFile noOptions alwaysOk))
             {| retries := Undefined; backoff := Absent; minDelayMs := Absent;
                maxDelayMs := Absent; reinitOnAuthError := Absent |});
      reflexivity.
Defined.

(** The store answers 403 to every upload and reinit is off: one
    descriptor for all four attempts. *)
Lemma no_reinit_single_descriptor_witness :
  (countEv isInitOk
     (uploadWithRetry (configOf putDescriptor 3 false) XHRTransport testFile noOptions
        {| w_init := fun _ => FetchResponds (jsonResponse 200 "OK" JNull);
           w_net := fun _ => loadWith 403 "Forbidden" |}).1 <= 1)%nat.
Proof.
  apply (no_reinit_single_descriptor (configOf putDescriptor 3 false) XHRTransport
           testFile noOptions
           {| w_init := fun _ => FetchResponds (jsonResponse 200 "OK" JNull);
              w_net := fun _ => loadWith 403 "Forbidden" |}).
  reflexivity.
Defined.

Example four_attempts_on_one_descriptor :
  map isTransport
    (uploadWithRetry (configOf putDescriptor 3 false) XHRTransport testFile noOptions
       {| w_init := fun _ => FetchResponds (jsonResponse 200 "OK" JNull);
          w_net := fun _ => loadWith 403 "Forbidden" |}).1
  = [false; true; false; true; false; true; false; true].
Proof. vm_compute. reflexivity. Qed.

(** ** xhr.ts: the transports *)

Lemma phase_createErrorFromResponse p st text body :
  phase (createErrorFromResponse p st text body) = p.
Proof.
  unfold createErrorFromResponse.
  destruct ((400 <=? st) && (st <? 500)); [ destruct (st =? 403) | ];
    [ reflexivity | reflexivity | ].
  destruct (500 <=? st); reflexivity.
Qed.

Lemma phase_fetchCatch error :
  (forall e, error <> TUploadError e) -> phase (fetchCatch error) = upload.
Proof.
  intros Hne. destruct error as [e|name msg|v]; cbn [fetchCatch].
  - destruct (Hne e). reflexivity.
  - destruct (String.eqb name "AbortError"); [ reflexivity | ].
    apply normalizeError_phase.
  - reflexivity.
Qed.

Lemma entries_throws o t :
  entries o = inl t -> forall e, t <> TUploadError e.
Proof.
  unfold entries. destruct o; [ discriminate | ]. intros [= <-] e. discriminate.
Qed.

Lemma xhrSend_throws d f t :
  xhrSend d f = inl t -> forall e, t <> TUploadError e.
Proof.
  unfold xhrSend. destruct (mode d); [ discriminate | ].
  destruct (entries (fields d)) eqn:He; [ | discriminate ].
  intros [= <-]. eapply entries_throws, He.
Qed.

Lemma fetchRequest_throws d f t :
  fetchRequest d f = inl t -> forall e, t <> TUploadError e.
Proof.
  unfold fetchRequest. destruct (mode d); [ discriminate | ].
  destruct (entries (fields d)) eqn:He; [ | discriminate ].
  intros [= <-]. eapply entries_throws, He.
Qed.

Lemma XHRTransport_phase d f o net e :
  outcome (XHRTransport d f o net) = inr (TUploadError e) -> phase e = upload.
Proof.
  unfold XHRTransport, XHRTransport_upload.
  assert (Hgo : outcome
                  match xhrSend d f with
                  | inl error =>
                      {| emitted := []; sent := None;
                         outcome := inr (TUploadError
                           (normalizeError error upload
                              "Failed to initiate upload request")) |}
                  | inr request =>
                      {| emitted := if onProgress o
                                    then progressRun
                                           (newProgressThrottler (progressIntervalMs o))
                                           (progressEvents (net_xhr net))
                                    else [];
                         sent := Some request;
                         outcome := xhrSettle d (ending (net_xhr net)) |}
                  end = inr (TUploadError e) -> phase e = upload).
  { destruct (xhrSend d f) as [t|req] eqn:Hsend; cbn [outcome].
    - intros [= <-]. pose proof (xhrSend_throws d f t Hsend) as Hne.
      destruct t as [e0|name msg|v]; [ destruct (Hne e0); reflexivity | | reflexivity ].
      apply normalizeError_phase.
    - unfold xhrSettle.
      destruct (ending (net_xhr net)) as [st text etag loc body parsed| | |].
      + destruct ((200 <=? st) && (st <? 300)); [ discriminate | ].
        intros [= <-]. apply phase_createErrorFromResponse.
      + intros [= <-]. reflexivity.
      + intros [= <-]. reflexivity.
      + intros [= <-]. reflexivity. }
  destruct (signal o) as [[|]|]; [ intros [= <-]; reflexivity | exact Hgo | exact Hgo ].
Qed.

Lemma FetchTransport_phase d f o net e :
  (forall e', net_fetch net <> FetchRejects (TUploadError e')) ->
  outcome (FetchTransport d f o net) = inr (TUploadError e) -> phase e = upload.
Proof.
  intros Hnet. unfold FetchTransport, FetchTransport_upload.
  destruct (fetchRequest d f) as [t|req] eqn:Hreq; cbn [outcome].
  - intros [= <-]. apply phase_fetchCatch. eapply fetchRequest_throws, Hreq.
  - destruct (net_fetch net) as [t|r] eqn:Hf.
    + intros [= <-]. apply phase_fetchCatch. intros e' ->. apply (Hnet e'). reflexivity.
    + destruct (negb (ok r)); [ | discriminate ].
      intros [= <-]. cbn [fetchCatch normalizeError].
      apply phase_createErrorFromResponse.
Qed.

(** X10: whatever either transport rejects with is an UploadError of
    phase [upload] that the library classified itself, provided [fetch]
    does not itself reject with an UploadError. *)
Theorem transport_rejections_are_upload_errors ty d f o net t :
  (forall e, net_fetch net <> FetchRejects (TUploadError e)) ->
  outcome (createTransport ty d f o net) = inr t ->
  exists e, t = TUploadError e /\ phase e = upload /\ classified e.
Proof.
  intros Hnet Hout. unfold createTransport in Hout.
  destruct (default xhr ty).
  - destruct (XHRTransport_classified d f o net t Hout) as (e & -> & Hcl).
    exists e. repeat split; [ | exact Hcl ].
    eapply XHRTransport_phase, Hout.
  - destruct (FetchTransport_classified d f o net t Hnet Hout) as (e & -> & Hcl).
    exists e. repeat split; [ | exact Hcl ].
    eapply FetchTransport_phase; [ exact Hnet | exact Hout ].
Qed.

Lemma transport_rejections_are_upload_errors_witness :
  exists e,
    TUploadError (createErrorFromResponse upload 403 "Forbidden" JNull)
      = TUploadError e /\ phase e = upload /\ classified e.
Proof.
  apply (transport_rejections_are_upload_errors (Some fetch) putDescriptor testFile
           progressOptions (loadWith 403 "Forbidden")).
  - intros e. discriminate.
  - reflexivity.
Defined.

Lemma remove_quotes_clean s : hasQuote (remove_quotes s) = false.
Proof.
  induction s as [|c s IH]; [ reflexivity | ].
  cbn [remove_quotes]. destruct (Ascii.eqb c quote) eqn:Hc; [ exact IH | ].
  cbn [hasQuote]. rewrite Hc, IH. reflexivity.
Qed.

Lemma or_undefined_Some a s :
  or_undefined a = Some s -> a = Some s /\ s <> "".
Proof.
  unfold or_undefined. destruct a as [s0|]; [ | discriminate ].
  destruct (String.eqb s0 "") eqn:He; [ discriminate | ].
  intros [= <-]. split; [ reflexivity | ].
  intros ->. discriminate.
Qed.

Lemma result_fields (d : PresignConfig) etagH locH r :
  r = {| r_key := key d; r_location := or_undefined locH;
         r_etag := or_undefined (remove_quotes <$> etagH); r_mode := mode d |} ->
  r_key r = key d /\ r_mode r = mode d /\
  (forall s, r_etag r = Some s -> s <> "" /\ hasQuote s = false) /\
  (forall s, r_location r = Some s -> s <> "").
Proof.
  intros ->. cbn. repeat split.
  - apply or_undefined_Some in H as [_ Hs]. exact Hs.
  - apply or_undefined_Some in H as [Hs _].
    destruct etagH as [h|]; [ | discriminate ].
    injection Hs as <-. apply remove_quotes_clean.
  - intros s Hs. apply or_undefined_Some in Hs as [_ Hs]. exact Hs.
Qed.

(** X11: a result that either transport resolves with carries the key
    and the mode of the descriptor; its etag, when present, is not empty
    and holds no double quote; its location, when present, is not
    empty. *)
Theorem transport_result_fields ty d f o net r :
  outcome (createTransport ty d f o net) = inl r ->
  r_key r = key d /\ r_mode r = mode d /\
  (forall s, r_etag r = Some s -> s <> "" /\ hasQuote s = false) /\
  (forall s, r_location r = Some s -> s <> "").
Proof.
  unfold createTransport. destruct (default xhr ty).
  - unfold XHRTransport, XHRTransport_upload.
    assert (Hgo : forall emittedValues,
              outcome
                match xhrSend d f with
                | inl error =>
                    {| emitted := []; sent := None;
                       outcome := inr (TUploadError
                         (normalizeError error upload
                            "Failed to initiate upload request")) |}
                | inr request =>
                    {| emitted := emittedValues; sent := Some request;
                       outcome := xhrSettle d (ending (net_xhr net)) |}
                end = inl r ->
              r_key r = key d /\ r_mode r = mode d /\
              (forall s, r_etag r = Some s -> s <> "" /\ hasQuote s = false) /\
              (forall s, r_location r = Some s -> s <> "")).
    { intros ev. destruct (xhrSend d f); [ discriminate | ]. cbn [outcome].
      unfold xhrSettle.
      destruct (ending (net_xhr net)) as [st text etag loc body parsed| | |];
        try discriminate.
      destruct ((200 <=? st) && (st <? 300)); [ | discriminate ].
      intros [= <-]. eapply result_fields. reflexivity. }
    destruct (signal o) as [[|]|]; [ discriminate | apply Hgo | apply Hgo ].
  - unfold FetchTransport, FetchTransport_upload.
    destruct (fetchRequest d f); [ discriminate | ]. cbn [outcome].
    destruct (net_fetch net) as [t|resp]; [ discriminate | ].
    destruct (negb (ok resp)); [ discriminate | ].
    intros [= <-]. eapply result_fields. reflexivity.
Qed.

Lemma transport_result_fields_witness :
  let r := {| r_key := Some "test-key"; r_location := None;
              r_etag := Some "abc123def456"; r_mode := put |} in
  r_key r = key putDescriptor /\ r_mode r = mode putDescriptor /\
  (forall s, r_etag r = Some s -> s <> "" /\ hasQuote s = false) /\
  (forall s, r_location r = Some s -> s <> "").
Proof.
  intro r.
  apply (transport_result_fields (Some xhr) putDescriptor testFile progressOptions
           {| net_xhr := {| progressEvents := [];
                            ending := XhrLoad 200 "OK"
                                        (Some (String quote ("abc123def456"
                                                 +:+ String quote EmptyString)))
                                        None "" None |};
              net_fetch := FetchRejects (TValue JNull) |} r).
  reflexivity.
Defined.



Lemma progressRun_sublist events :
  forall t, sublist (progressRun t events) (map (fun ne => progressOf ne.2) events).
Proof.
  induction events as [|[now event] rest IH]; intros t; [ constructor | ].
  cbn [progressRun map].
  destruct (progressListener t now event) as [[p|] t'] eqn:Hl.
  - rewrite (progressListener_emits t now event p t' Hl).
    apply sublist_skip, IH.
  - apply sublist_cons, IH.
Qed.

(** X13: the values the XHR transport hands to the progress callback
    are, in the order of the events, values built from some of the
    progress events of the request: nothing is invented, reordered or
    reported twice. *)
Theorem emitted_progress_follows_events d f o script :
  sublist (emitted (XHRTransport_upload d f o script))
          (map (fun ne => progressOf ne.2) (progressEvents script)).
Proof.
  unfold XHRTransport_upload.
  destruct (signal o) as [[|]|]; try apply sublist_nil_l;
    (destruct (xhrSend d f); [ apply sublist_nil_l | ]);
    cbn [emitted]; (destruct (onProgress o); [ | apply sublist_nil_l ]);
    apply progressRun_sublist.
Qed.

(** X14: a value the XHR transport emits with a positive total has a
    percent of exactly 100 when all bytes are sent and of exactly 0
    when none is; in between it is an integer less than one point away
    from the exact ratio (the quotient and the product are rounded to
    doubles before [Math.round] is applied, so that 29 of 200 gives 14
    and not 15). *)
Theorem emitted_percent_accuracy d f o script p :
  In p (emitted (XHRTransport_upload d f o script)) ->
  0 < totalBytes p ->
  (bytesSent p = totalBytes p -> percent p = JInt 100) /\
  (bytesSent p = 0 -> percent p = JInt 0) /\
  (0 <= bytesSent p <= totalBytes p ->
   exists z, percent p = JInt z /\
     Z.abs (100 * bytesSent p - totalBytes p * z) < totalBytes p).
Proof.
  intros Hin Hpos.
  destruct (emitted_XHR_from_event d f o script p Hin) as (now & event & _ & ->).
  cbn [progressOf percent bytesSent totalBytes] in *.
  split; [ | split ].
  - intros ->. apply round_percent_full, Hpos.
  - intros ->. apply round_percent_none. lia.
  - intros Hr.
    destruct (round_percent_range (loaded event) (total event) Hr Hpos)
      as (z & Hz & _ & Hacc).
    exists z. split; assumption.
Qed.

Lemma emitted_percent_accuracy_witness :
  (29 = 200 -> JInt 14 = JInt 100) /\
  (29 = 0 -> JInt 14 = JInt 0) /\
  (0 <= 29 <= 200 ->
   exists z, JInt 14 = JInt z /\ Z.abs (100 * 29 - 200 * z) < 200).
Proof.
  apply (emitted_percent_accuracy putDescriptor testFile progressOptions
           {| progressEvents := [(1000, {| lengthComputable := true;
                                          loaded := 29; total := 200 |})];
              ending := XhrAbort |}
           {| bytesSent := 29; totalBytes := 200; percent := JInt 14 |}).
  - left. reflexivity.
  - cbn. lia.
Defined.

Section SilentWithoutCallback.

Variable config : UploaderConfig.
Variable ty : option TransportType.
Variable file : File.
Variable options : UploadOptions.
Variable world : World.

Lemma createTransport_silent d f o net :
  onProgress o = false -> emitted (createTransport ty d f o net) = [].
Proof.
  intros Hcb. unfold createTransport. destruct (default xhr ty).
  - unfold XHRTransport, XHRTransport_upload. rewrite Hcb.
    destruct (signal o) as [[|]|]; [ reflexivity | | ];
      destruct (xhrSend d f); reflexivity.
  - apply FetchTransport_emits_nothing.
Qed.

Hypothesis noCallback : o_onProgress options = false.

Lemma tryBlock_silent st :
  progressCalls (tryBlock config (createTransport ty) file options world st).1.1 = [].
Proof.
  unfold tryBlock, callTransport.
  destruct (aborted (o_signal options) (clock st)); [ reflexivity | ].
  destruct (needsInit config st).
  - destruct (initializePresign config file _); cbn; [ reflexivity | ].
    rewrite createTransport_silent by exact noCallback. reflexivity.
  - destruct (presignConfig st); cbn; [ | reflexivity ].
    rewrite createTransport_silent by exact noCallback. reflexivity.
Qed.

Lemma attempts_silent n :
  forall attempt st,
    progressCalls
      (attempts config (createTransport ty) file options world n attempt st).1 = [].
Proof.
  induction n as [|n IH]; intros attempt st; [ reflexivity | ].
  rewrite attempts_S. pose proof (tryBlock_silent st) as Htry.
  destruct (tryBlock config (createTransport ty) file options world st)
    as [[evs st1] res].
  cbn [fst] in Htry. destruct res as [result|error]; [ exact Htry | ].
  destruct (p_retries (mergeRetry (c_retry config)) + 1 <=? attempt);
    [ exact Htry | ].
  destruct (negb (isRetryableError (caught st1 error))); [ exact Htry | ].
  destruct (aborted (o_signal options) (clock st1)); [ exact Htry | ].
  specialize (IH (attempt + 1) (afterCatch st1 (caught st1 error))).
  destruct (attempts config (createTransport ty) file options world n (attempt + 1) _)
    as [evs' res'].
  cbn [fst] in *. unfold progressCalls in *.
  rewrite flat_map_app, Htry. cbn. exact IH.
Qed.

End SilentWithoutCallback.

(** X15: an upload started without a progress callback reports no
    progress, over either transport and whatever happens on the
    network. *)
Theorem no_callback_no_progress config file opts cancelled world :
  o_onProgress opts = false ->
  progressCalls (UploaderImpl_upload config file opts cancelled world).1 = [].
Proof.
  intros Hcb. unfold UploaderImpl_upload, uploadWithRetry.
  apply attempts_silent. exact Hcb.
Qed.

Lemma no_callback_no_progress_witness :
  progressCalls
    (UploaderImpl_upload (configOf postDescriptor 0 true) smallFile noOptions
       (fun _ => false)
       {| w_init := fun _ => FetchResponds (jsonResponse 200 "OK" JNull);
          w_net := fun _ => multipartScript |}).1 = [].
Proof.
  apply (no_callback_no_progress (configOf postDescriptor 0 true) smallFile noOptions).
  reflexivity.
Defined.

(** ** createUploader.ts: backoff, the init request, several files *)

(** X16: with integer bounds [0 <= minDelayMs <= maxDelayMs <= 2^53],
    and [minDelayMs > 0] when the backoff is exponential and more than
    1024 attempts are made, the first delay is [minDelayMs], the delays
    are integers that never decrease from one attempt to the next, and
    every delay lies between the two bounds. *)
Theorem retry_delays_grow_within_bounds (a b : Z) (cfg : RetryPolicy) (lo hi : Z) :
  1 <= a <= b ->
  p_minDelayMs cfg = JInt lo ->
  p_maxDelayMs cfg = JInt hi ->
  0 <= lo <= hi ->
  hi <= 2 ^ 53 ->
  0 < lo \/ p_backoff cfg = linear \/ b <= 1024 ->
  exists da db,
    calculateRetryDelay 1 cfg = JInt lo /\
    calculateRetryDelay a cfg = JInt da /\
    calculateRetryDelay b cfg = JInt db /\
    lo <= da /\ da <= db /\ db <= hi.
Proof.
  intros [Ha Hab] Hlo Hhi [H0 Hle] H53 Hfinite.
  assert (Hfa : 0 < lo \/ p_backoff cfg = linear \/ a <= 1024)
    by (destruct Hfinite as [H|[H|H]]; [ left; exact H | right; left; exact H | right; right; lia ]).
  assert (Hf1 : 0 < lo \/ p_backoff cfg = linear \/ 1 <= 1024)
    by (right; right; lia).
  rewrite (retry_delay_value 1 cfg lo hi ltac:(lia) Hlo Hhi (conj H0 Hle) H53 Hf1).
  rewrite (retry_delay_value a cfg lo hi Ha Hlo Hhi (conj H0 Hle) H53 Hfa).
  rewrite (retry_delay_value b cfg lo hi ltac:(lia) Hlo Hhi (conj H0 Hle) H53 Hfinite).
  eexists _, _. split; [ | split; [ reflexivity | split; [ reflexivity | ] ] ].
  - f_equal. destruct (p_backoff cfg);
      [ | change (2 ^ (1 - 1)) with 1 ]; rewrite Z.mul_1_r; apply Z.min_l, Hle.
  - assert (1 <= 2 ^ (a - 1)) by (apply (Z.pow_le_mono_r 2 0 (a - 1)); lia).
    assert (2 ^ (a - 1) <= 2 ^ (b - 1)) by (apply Z.pow_le_mono_r; lia).
    destruct (p_backoff cfg).
    + split; [ apply Z.min_glb; nia | ].
      split; [ apply Z.min_le_compat_r; nia | apply Z.le_min_r ].
    + split; [ apply Z.min_glb; nia | ].
      split; [ apply Z.min_le_compat_r; nia | apply Z.le_min_r ].
Qed.

Lemma retry_delays_grow_within_bounds_witness :
  exists da db,
    calculateRetryDelay 1 DEFAULT_RETRY_CONFIG = JInt 500 /\
    calculateRetryDelay 2 DEFAULT_RETRY_CONFIG = JInt da /\
    calculateRetryDelay 5 DEFAULT_RETRY_CONFIG = JInt db /\
    500 <= da /\ da <= db /\ db <= 4000.
Proof.
  apply (retry_delays_grow_within_bounds 2 5 DEFAULT_RETRY_CONFIG 500 4000);
    [ lia | reflexivity | reflexivity | lia | lia | left; lia ].
Defined.









Example index_names :
  map decimal [0%nat; 7%nat; 10%nat; 123%nat] = ["0"; "7"; "10"; "123"].
Proof. reflexivity. Qed.

(** Headers given as an array of pairs, in a request with a body. *)
Example pairs_as_headers :
  initRequest
    {| i_url := "/api/upload/init"; i_method := None;
       i_headers := Some (StaticHeaders
                            (HPairs [("authorization", "Bearer test-token");
                                     ("content-type", "text/plain")]));
       i_buildPayload := Some (fun f => inr JNull);
       i_mapResponse := fun _ => inr putDescriptor |} testFile
  = inr {| ir_method := POST; ir_url := "/api/upload/init";
           ir_headers := HRecord [("0", "authorization,Bearer test-token");
                                  ("1", "content-type,text/plain");
                                  ("Content-Type", "application/json")];
           ir_body := Some JNull |}.
Proof. reflexivity. Qed.

Lemma initializeTry_throws init file reply t :
  (forall call e, i_headers init = Some (ComputedHeaders call) ->
     call <> inl (TUploadError e)) ->
  (forall build e, i_buildPayload init = Some build ->
     build file <> inl (TUploadError e)) ->
  (forall data e, i_mapResponse init data <> inl (TUploadError e)) ->
  (forall e, reply <> FetchRejects (TUploadError e)) ->
  initializeTry init file reply = inl t ->
  (exists st text body,
     t = TUploadError (createErrorFromResponse Errors.init st text body)) \/
  (forall e, t <> TUploadError e).
Proof.
  intros Hh Hb Hm Hf. unfold initializeTry.
  destruct (initRequest init file) as [t0|req] eqn:Hreq.
  - intros [= <-]. right. intros e ->. unfold initRequest in Hreq.
    destruct (i_headers init) as [[h|call]|] eqn:Hhs.
    + destruct (default POST (i_method init)); [ | discriminate ].
      destruct (i_buildPayload init) as [build|] eqn:Hbp; [ | discriminate ].
      destruct (build file) eqn:Hbf; [ | discriminate ].
      injection Hreq as ->. apply (Hb build e eq_refl Hbf).
    + destruct call as [tc|hs] eqn:Hc.
      * injection Hreq as ->. apply (Hh _ e eq_refl). reflexivity.
      * destruct (default POST (i_method init)); [ | discriminate ].
        destruct (i_buildPayload init) as [build|] eqn:Hbp; [ | discriminate ].
        destruct (build file) eqn:Hbf; [ | discriminate ].
        injection Hreq as ->. apply (Hb build e eq_refl Hbf).
    + destruct (default POST (i_method init)); [ | discriminate ].
      destruct (i_buildPayload init) as [build|] eqn:Hbp; [ | discriminate ].
      destruct (build file) eqn:Hbf; [ | discriminate ].
      injection Hreq as ->. apply (Hb build e eq_refl Hbf).
  - destruct reply as [tf|response].
    + intros [= <-]. right. intros e ->. apply (Hf e). reflexivity.
    + destruct (negb (ok response)).
      * intros [= <-]. left. eauto.
      * destruct (resp_json response) as [data|].
        -- intros Hmap. right. intros e ->. apply (Hm data e Hmap).
        -- intros [= <-]. right. intros e. discriminate.
Qed.

(** X18: as long as the caller's callbacks ([headers], [buildPayload],
    [mapResponse]) and [fetch] do not themselves throw an UploadError,
    every failure of [initializePresign] is an error of phase [init]
    that the library classified itself. *)
Theorem init_failures_are_init_errors config file reply err :
  (forall call e, i_headers (c_init config) = Some (ComputedHeaders call) ->
     call <> inl (TUploadError e)) ->
  (forall build e, i_buildPayload (c_init config) = Some build ->
     build file <> inl (TUploadError e)) ->
  (forall data e, i_mapResponse (c_init config) data <> inl (TUploadError e)) ->
  (forall e, reply <> FetchRejects (TUploadError e)) ->
  initializePresign config file reply = inl err ->
  phase err = Errors.init /\ classified err.
Proof.
  intros Hh Hb Hm Hf. unfold initializePresign.
  destruct (initializeTry (c_init config) file reply) as [t|d] eqn:Htry;
    [ | discriminate ].
  destruct (initializeTry_throws _ _ _ _ Hh Hb Hm Hf Htry)
    as [(st & text & body & ->)|Hne].
  - intros [= <-]. split; [ apply phase_createErrorFromResponse | apply cl_response ].
  - destruct t as [e|name msg|v]; [ destruct (Hne e); reflexivity | | ].
    + intros [= <-].
      split; [ exact (normalizeError_phase name msg Errors.init
                        "Failed to initialize presigned URL")
             | exact (cl_normalized name msg Errors.init
                        "Failed to initialize presigned URL") ].
    + intros [= <-].
      split; [ reflexivity
             | exact (cl_value v Errors.init "Failed to initialize presigned URL") ].
Qed.

Lemma init_failures_are_init_errors_witness :
  phase (createErrorFromResponse Errors.init 500 "Internal Server Error" JNull)
    = Errors.init /\
  classified (createErrorFromResponse Errors.init 500 "Internal Server Error" JNull).
Proof.
  apply (init_failures_are_init_errors (configOf putDescriptor 0 true) testFile
           (FetchResponds (jsonResponse 500 "Internal Server Error" JNull))).
  - intros call e H. discriminate H.
  - intros build e [= <-]. discriminate.
  - intros data e. discriminate.
  - intros e. discriminate.
  - reflexivity.
Defined.

Lemma sumProgress_spec files :
  forall index pm tb ts,
    sumProgress index files pm tb ts
    = (tb + totalSize files, ts + sentFrom index files pm).
Proof.
  induction files as [|f rest IH]; intros index pm tb ts;
    cbn [sumProgress totalSize sentFrom fold_right].
  - f_equal; lia.
  - rewrite IH. fold (totalSize rest).
    destruct (pm !! index); f_equal; lia.
Qed.

Lemma sentFrom_complete files :
  forall index (pm : gmap nat UploadProgress),
    (forall i file, files !! i = Some file ->
       exists q, pm !! (index + i)%nat = Some q /\ bytesSent q = f_size file) ->
    sentFrom index files pm = totalSize files.
Proof.
  induction files as [|f rest IH]; intros index pm Hall; [ reflexivity | ].
  cbn [sentFrom totalSize fold_right]. fold (totalSize rest).
  destruct (Hall 0%nat f eq_refl) as (q & Hq & Hb).
  rewrite Nat.add_0_r in Hq. rewrite Hq, Hb. f_equal.
  apply IH. intros i file Hi.
  destruct (Hall (S i) file Hi) as (q' & Hq' & Hb').
  exists q'. split; [ | exact Hb' ].
  replace (S index + i)%nat with (index + S i)%nat by lia. exact Hq'.
Qed.

Lemma sentFrom_none files :
  forall index (pm : gmap nat UploadProgress),
    (forall i, (i < length files)%nat -> pm !! (index + i)%nat = None) ->
    sentFrom index files pm = 0.
Proof.
  induction files as [|f rest IH]; intros index pm Hnone; [ reflexivity | ].
  cbn [sentFrom]. pose proof (Hnone 0%nat ltac:(cbn; lia)) as H0.
  rewrite Nat.add_0_r in H0. rewrite H0.
  rewrite IH; [ reflexivity | ].
  intros i Hi. replace (S index + i)%nat with (index + S i)%nat by lia.
  apply Hnone. cbn. lia.
Qed.

(** X19: the overall progress has as total the sum of the sizes of all
    files, whatever has been reported, and as bytes sent the sum of the
    latest values reported for the files of the list.  Before any
    report it is 0 bytes and 0 percent; once every file has reported
    its full size it is the whole total and, for a positive total, 100
    percent. *)
Theorem overall_progress_aggregation files (pm : gmap nat UploadProgress) p :
  updateOverallProgress true files pm = Some p ->
  totalBytes p = totalSize files /\
  bytesSent p = sentFrom 0 files pm /\
  ((forall i, (i < length files)%nat -> pm !! i = None) ->
   bytesSent p = 0 /\ percent p = JInt 0) /\
  ((forall i file, files !! i = Some file ->
      exists q, pm !! i = Some q /\ bytesSent q = f_size file) ->
   bytesSent p = totalBytes p /\
   (0 < totalSize files -> percent p = JInt 100)).
Proof.
  unfold updateOverallProgress. cbn [negb]. rewrite sumProgress_spec.
  rewrite !Z.add_0_l. intros [= <-]. cbn [totalBytes bytesSent percent].
  split; [ reflexivity | ]. split; [ reflexivity | ]. split.
  - intros Hnone. rewrite (sentFrom_none files 0 pm Hnone).
    split; [ reflexivity | ].
    destruct (0 <? totalSize files) eqn:Hpos; [ | reflexivity ].
    apply round_percent_none. lia.
  - intros Hall. rewrite (sentFrom_complete files 0 pm Hall).
    split; [ reflexivity | ]. intros Hpos.
    replace (0 <? totalSize files) with true by lia.
    apply round_percent_full, Hpos.
Qed.

Lemma overall_progress_aggregation_witness :
  let files := [{| f_name := "file1.png"; f_size := 1000; f_type := "image/png" |};
                {| f_name := "file2.jpg"; f_size := 2000; f_type := "image/jpeg" |}] in
  let pm : gmap nat UploadProgress :=
    <[1%nat := {| bytesSent := 2000; totalBytes := 2000; percent := JInt 100 |}]>
      (<[0%nat := {| bytesSent := 1000; totalBytes := 1000; percent := JInt 100 |}]> ∅) in
  updateOverallProgress true files pm
  = Some {| bytesSent := 3000; totalBytes := 3000; percent := JInt 100 |} /\
  totalSize files = 3000.
Proof.
  intros files pm.
  assert (Hrun : updateOverallProgress true files pm
                 = Some {| bytesSent := 3000; totalBytes := 3000;
                           percent := JInt 100 |}) by (vm_compute; reflexivity).
  split; [ exact Hrun | ].
  destruct (overall_progress_aggregation files pm _ Hrun) as (Ht & _).
  symmetry. exact Ht.
Defined.

Lemma submit_blocked tasks :
  forall b,
    running (controller b) = 0 ->
    maxConcurrency (controller b) <= 0 ->
    submit b tasks
    = {| controller := {| running := 0; queue := queue (controller b) ++ tasks;
                          maxConcurrency := maxConcurrency (controller b) |};
         inFlight := inFlight b; started := started b |}.
Proof.
  unfold submit.
  induction tasks as [|task rest IH]; intros [[r q m] inf st] Hr Hm; cbn in *.
  - subst r. rewrite app_nil_r. reflexivity.
  - subst r. unfold execute, startTasks. cbn.
    replace (0 <? m) with false by lia. cbn.
    rewrite IH by (cbn; lia). cbn.
    rewrite !app_nil_r, <- app_assoc. reflexivity.
Qed.

(** X20: with a concurrency bound of 0 or less no task is ever started:
    every file stays in the queue, in input order, nothing is in
    flight, and the scheduler has no further state to reach. *)
Theorem no_slot_no_start files k b :
  k <= 0 ->
  reachable files (Some k) b ->
  b = uploadManyStart files (Some k) /\
  started b = [] /\ inFlight b = [] /\
  queue (controller b) = seq 0 files /\ running (controller b) = 0.
Proof.
  intros Hk Hreach.
  assert (Hstart : uploadManyStart files (Some k)
                   = {| controller := {| running := 0; queue := seq 0 files;
                                         maxConcurrency := k |};
                        inFlight := []; started := [] |}).
  { unfold uploadManyStart. cbn [default].
    rewrite submit_blocked by (cbn; lia). reflexivity. }
  induction Hreach as [|b t Hreach IH Hin].
  - rewrite Hstart. cbn. auto.
  - destruct IH as (_ & _ & Hnone & _). rewrite Hnone in Hin. inversion Hin.
Qed.

Lemma no_slot_no_start_witness :
  started (uploadManyStart 3 (Some 0)) = [] /\
  queue (controller (uploadManyStart 3 (Some 0))) = [0; 1; 2]%nat.
Proof.
  destruct (no_slot_no_start 3 0 (uploadManyStart 3 (Some 0)) ltac:(lia)
              (reach_start 3 (Some 0))) as (_ & Hs & _ & Hq & _).
  split; [ exact Hs | exact Hq ].
Defined.

(** X21: with a positive bound, whenever no task is in flight the queue
    is empty and every file has been started: the batch cannot come to
    rest with a file left waiting. *)
Theorem idle_means_all_started files k b :
  0 < k ->
  reachable files (Some k) b ->
  inFlight b = [] ->
  queue (controller b) = [] /\ started b = seq 0 files.
Proof.
  intros Hk Hreach Hidle.
  destruct (reachable_inv files k b ltac:(lia) Hreach)
    as [Hrun Hmax Hord Hbound Hbusy Hnd Hsub].
  rewrite Hidle in Hrun. cbn in Hrun.
  assert (Hq : queue (controller b) = []) by (destruct Hbusy; [ assumption | lia ]).
  split; [ exact Hq | ]. rewrite Hq, app_nil_r in Hord. exact Hord.
Qed.

Lemma idle_means_all_started_witness :
  let b := settle (settle (settle (uploadManyStart 3 (Some 2)) 0%nat) 1%nat) 2%nat in
  inFlight b = [] /\ queue (controller b) = [] /\ started b = [0; 1; 2]%nat.
Proof.
  intro b.
  assert (Hreach : reachable 3 (Some 2) b).
  { repeat (apply reach_settle); [ apply reach_start | | | ];
      vm_compute; repeat constructor. }
  split; [ reflexivity | ].
  apply (idle_means_all_started 3 2 b ltac:(lia) Hreach). reflexivity.
Defined.

(** X22: when [retries] is left out or set to a number that is not
    negative, [upload] called with a signal that is already aborted
    fails at once with an UploadError of phase [upload], without any
    Initializer or Transport call and without sleeping. *)
Theorem upload_with_aborted_signal config file opts cancelled world :
  0 <= p_retries (mergeRetry (c_retry config)) ->
  aborted (o_signal opts) 0 = true ->
  exists e,
    UploaderImpl_upload config file opts cancelled world
    = ([], inr (TUploadError e)) /\
    phase e = upload.
Proof.
  intros Hr Hsig. exists abortedCheckError. split; [ | reflexivity ].
  unfold UploaderImpl_upload.
  apply uploadWithRetry_aborted; [ exact Hr | ].
  cbn. unfold combinedSignal. rewrite Hsig. apply orb_true_r.
Qed.

Lemma upload_with_aborted_signal_witness :
  exists e,
    UploaderImpl_upload (configOf putDescriptor 3 true) testFile abortedOptions
      (fun _ => false) alwaysOk
    = ([], inr (TUploadError e)) /\
    phase e = upload.
Proof.
  apply (upload_with_aborted_signal (configOf putDescriptor 3 true) testFile
           abortedOptions (fun _ => false) alwaysOk).
  - cbn. lia.
  - reflexivity.
Defined.

(** X23: when the signal is aborted by the time an attempt has failed,
    the loop does not sleep and does not try again, even if the error
    is retryable and attempts are left: the call fails with the error
    of that attempt. *)
Theorem abort_during_attempt_ends_the_loop
    config transport file options world n attempt st evs st1 error :
  tryBlock config transport file options world st = (evs, st1, inr error) ->
  aborted (o_signal options) (clock st1) = true ->
  attempts config transport file options world (S n) attempt st
  = (evs, inr (TUploadError (caught st1 error))).
Proof.
  intros Htry Hsig. rewrite attempts_S, Htry, Hsig.
  destruct (p_retries (mergeRetry (c_retry config)) + 1 <=? attempt);
    [ reflexivity | ].
  destruct (negb (isRetryableError (caught st1 error))); reflexivity.
Qed.

(** The signal fires while the first upload is in flight: the store
    answers 500, which is retryable, and yet nothing follows. *)
Lemma abort_during_attempt_ends_the_loop_witness :
  exists run,
    attempts (configOf putDescriptor 3 true) XHRTransport testFile
      {| o_onProgress := false; o_signal := Some (fun t => Nat.leb 2 t) |}
      {| w_init := fun _ => FetchResponds (jsonResponse 200 "OK" JNull);
         w_net := fun _ => loadWith 500 "Internal Server Error" |}
      4 1 initialState
    = ([EvInit (inr putDescriptor); EvTransport putDescriptor run],
       inr (TUploadError
              (createErrorFromResponse upload 500 "Internal Server Error" JUndefined))).
Proof.
  eexists. etransitivity.
  - eapply (abort_during_attempt_ends_the_loop (configOf putDescriptor 3 true)
              XHRTransport testFile
              {| o_onProgress := false; o_signal := Some (fun t => Nat.leb 2 t) |}
              {| w_init := fun _ => FetchResponds (jsonResponse 200 "OK" JNull);
                 w_net := fun _ => loadWith 500 "Internal Server Error" |}
              3 1 initialState).
    + reflexivity.
    + reflexivity.
  - reflexivity.
Defined.
